(** * Escalation daemon: scheduler, RPC server, session registry, control CLI

    A shallow embedding of
      - [plugins/pushover/scripts/service/escalation_service.py]
        ([ScheduledEvent], [EscalationScheduler], [EscalationService]);
      - [plugins/pushover/scripts/service/escalation_ctl.py] ([cmd_cancel]).

    Python objects live in an explicit object memory: a [ScheduledEvent]
    instance is a reference (its index in the memory), so that the heap and
    the [events_by_id] index share the very same objects and the test
    [id(e) in heap_ids] is a test on references.  A [dict] is an
    insertion-ordered association list.  Clock readings ([time.time()]) are
    exact rationals handed in by the caller; the rounding of binary floating
    point is outside the embedding. *)

From Stdlib Require Import ZArith QArith Lqa Lia Bool.
From Stdlib Require Import Strings.String Strings.Ascii Strings.Byte.
From Stdlib Require Import Numbers.DecimalString.
From stdpp Require Import base option list strings.

Local Open Scope string_scope.
Local Open Scope list_scope.

(** ** Python [dict] with [str] keys: insertion-ordered association list *)

Module PyDict.
Section Dict.
Context {V : Type}.

Definition t := list (string * V).

(** [d.get(k)] / [k in d] *)
Fixpoint get (k : string) (d : t) : option V :=
  match d with
  | [] => None
  | (k', v) :: d' => if String.eqb k k' then Some v else get k d'
  end.

Definition mem (k : string) (d : t) : bool :=
  match get k d with Some _ => true | None => false end.

(** [del d[k]] *)
Definition del (k : string) (d : t) : t :=
  List.filter (fun kv => negb (String.eqb k (fst kv))) d.

(** [d[k] = v]: an existing key keeps its position, a new key goes last. *)
Fixpoint set (k : string) (v : V) (d : t) : t :=
  match d with
  | [] => [(k, v)]
  | (k', v') :: d' =>
      if String.eqb k k' then (k', v) :: d' else (k', v') :: set k v d'
  end.

Definition keys (d : t) : list string := List.map fst d.
End Dict.
Arguments t : clear implicits.
End PyDict.

(** ** [heapq] on a Python list

    [heappush] and [heappop] as in CPython's [heapq]; [lt a b] is the
    [a < b] of the elements.  The loops of [_siftdown] and [_siftup] run on a
    counter that bounds their number of iterations. *)

Module Heapq.
Section Heap.
Context {A : Type} (lt : A → A → bool).

(** The [while pos > startpos] loop of [_siftdown], [startpos] being 0 at
    both call sites that matter here; ends with [heap[pos] = newitem]. *)
Fixpoint siftdown_loop (fuel : nat) (heap : list A) (newitem : A) (pos : nat)
  : list A :=
  match fuel with
  | O => <[pos := newitem]> heap
  | S fuel' =>
      if Nat.ltb 0 pos then
        let parentpos := Nat.div2 (pos - 1) in
        match heap !! parentpos with
        | Some parent =>
            if lt newitem parent
            then siftdown_loop fuel' (<[pos := parent]> heap) newitem parentpos
            else <[pos := newitem]> heap
        | None => <[pos := newitem]> heap
        end
      else <[pos := newitem]> heap
  end.

Definition siftdown (heap : list A) (pos : nat) : list A :=
  match heap !! pos with
  | Some newitem => siftdown_loop (S pos) heap newitem pos
  | None => heap
  end.

(** The [while childpos < endpos] loop of [_siftup]: bubble the smaller
    child up until a leaf is hit; returns the list and the leaf position. *)
Fixpoint siftup_loop (fuel : nat) (heap : list A) (pos : nat) : list A * nat :=
  match fuel with
  | O => (heap, pos)
  | S fuel' =>
      let endpos := length heap in
      let childpos := 2 * pos + 1 in
      if Nat.ltb childpos endpos then
        let rightpos := childpos + 1 in
        let childpos :=
          match heap !! childpos, heap !! rightpos with
          | Some c, Some r => if lt c r then childpos else rightpos
          | _, _ => childpos
          end in
        match heap !! childpos with
        | Some c => siftup_loop fuel' (<[pos := c]> heap) childpos
        | None => (heap, pos)
        end
      else (heap, pos)
  end.

Definition siftup (heap : list A) (pos : nat) : list A :=
  match heap !! pos with
  | Some newitem =>
      let '(heap', pos') := siftup_loop (length heap) heap pos in
      siftdown_loop (S pos') (<[pos' := newitem]> heap') newitem pos'
  | None => heap
  end.

(** [heapq.heappush(heap, item)] *)
Definition heappush (heap : list A) (item : A) : list A :=
  siftdown (heap ++ [item]) (length heap).

(** [heapq.heappop(heap)]: [None] stands for the [IndexError] on an empty
    heap. *)
Definition heappop (heap : list A) : option (A * list A) :=
  match List.rev heap with
  | [] => None
  | lastelt :: rest_rev =>
      let heap' := List.rev rest_rev in
      match heap' with
      | [] => Some (lastelt, [])
      | returnitem :: _ => Some (returnitem, siftup (<[0 := lastelt]> heap') 0)
      end
  end.
End Heap.
End Heapq.

(** ** Data model *)

Definition Qltb (a b : Q) : bool := negb (Qle_bool b a).

(** [@dataclass(order=True) class ScheduledEvent]; only [fire_time] takes part
    in comparisons. *)
Record ScheduledEvent := mkEvent {
  fire_time : Q;
  escalation_id : string;
  message : string;
  priority : Z;
  cancelled : bool
}.

Definition set_cancelled (e : ScheduledEvent) : ScheduledEvent :=
  {| fire_time := fire_time e; escalation_id := escalation_id e;
     message := message e; priority := priority e; cancelled := true |}.

(** A reference to a [ScheduledEvent] object: its index in the object memory. *)
Abbreviation ref := nat (only parsing).

(** [a < b] on two event objects. *)
Definition event_lt (objs : list ScheduledEvent) (a b : ref) : bool :=
  match objs !! a, objs !! b with
  | Some ea, Some eb => Qltb (fire_time ea) (fire_time eb)
  | _, _ => false
  end.

(** [e.cancelled] for the object behind a reference. *)
Definition is_cancelled (objs : list ScheduledEvent) (r : ref) : bool :=
  match objs !! r with
  | Some e => cancelled e
  | None => false
  end.

Definition DEFAULT_DELAYS : list Z := [60; 3600]%Z.

(** [PRIORITIES = {60: 0, 3600: 2}] *)
Definition PRIORITIES : list (Z * Z) := [(60, 0); (3600, 2)]%Z.

(** [PRIORITIES.get(delay, 0)] *)
Fixpoint int_dict_get (d : list (Z * Z)) (k : Z) (default : Z) : Z :=
  match d with
  | [] => default
  | (k', v) :: d' => if Z.eqb k k' then v else int_dict_get d' k default
  end.

(** State of an [EscalationScheduler]: the event objects allocated so far,
    [self.heap], [self.events_by_id] and [self.running]. *)
Record EscalationScheduler := mkScheduler {
  objs : list ScheduledEvent;
  heap : list ref;
  events_by_id : PyDict.t (list ref);
  running : bool
}.

(** [EscalationScheduler.__init__] *)
Definition scheduler_init : EscalationScheduler :=
  {| objs := []; heap := []; events_by_id := []; running := true |}.

(** ** Timer engine *)

(** [for event in events: event.cancelled = True] *)
Definition flag_cancelled (events : list ref) (m : list ScheduledEvent)
  : list ScheduledEvent :=
  fold_left (fun m r => alter set_cancelled r m) events m.

(** [_cancel_internal]: flag every event of the group, drop the index entry. *)
Definition _cancel_internal (eid : string) (s : EscalationScheduler)
  : bool * EscalationScheduler :=
  match PyDict.get eid (events_by_id s) with
  | Some events =>
      (true,
       {| objs := flag_cancelled events (objs s);
          heap := heap s;
          events_by_id := PyDict.del eid (events_by_id s);
          running := running s |})
  | None => (false, s)
  end.

(** [cancel]: [_cancel_internal] under the lock. *)
Definition cancel (eid : string) (s : EscalationScheduler)
  : bool * EscalationScheduler :=
  _cancel_internal eid s.

(** The [ScheduledEvent(...)] built for one delay. *)
Definition new_event (now : Q) (eid msg : string) (delay : Z) : ScheduledEvent :=
  let prio := int_dict_get PRIORITIES delay 0%Z in
  {| fire_time := (now + inject_Z delay)%Q; escalation_id := eid;
     message := msg; priority := prio; cancelled := false |}.

(** One iteration of the [for delay in delays] loop of [add]: allocate the
    event, push it, append it to [events]. *)
Definition add_event (now : Q) (eid msg : string)
    (acc : list ScheduledEvent * list ref * list ref) (delay : Z)
  : list ScheduledEvent * list ref * list ref :=
  let '(m, h, events) := acc in
  let event := new_event now eid msg delay in
  let r : ref := length m in
  let m' := m ++ [event] in
  (m', Heapq.heappush (event_lt m') h r, events ++ [r]).

(** [add]; [now] is the value of [time.time()] read inside the lock. *)
Definition add (eid msg : string) (delays : list Z) (now : Q)
    (s : EscalationScheduler) : EscalationScheduler :=
  let s1 := snd (_cancel_internal eid s) in
  let '(m, h, events) :=
    fold_left (add_event now eid msg) delays (objs s1, heap s1, []) in
  {| objs := m; heap := h;
     events_by_id := PyDict.set eid events (events_by_id s1);
     running := running s1 |}.

(** [[e for e in events if not e.cancelled and id(e) in heap_ids]] *)
Definition active_events (m : list ScheduledEvent) (h : list ref)
    (events : list ref) : list ScheduledEvent :=
  omap (fun r : ref =>
          match m !! r with
          | Some e =>
              if negb (cancelled e) && bool_decide (r ∈ h) then Some e else None
          | None => None
          end) events.

(** Python's [min] over a non-empty sequence: the first smallest item. *)
Definition py_min (x : Q) (xs : list Q) : Q :=
  fold_left (fun m y => if Qltb y m then y else m) xs x.

(** Python's [max(0, v)]. *)
Definition py_max0 (v : Q) : Q := if Qltb 0 v then v else 0%Q.

(** One record of the [status] reply. *)
Record status_record := mkStatus {
  st_escalation_id : string;
  st_message : string;
  st_pending_count : nat;
  st_next_fire_in : Q
}.

(** The body of the loop of [status] once [active_events] is known;
    [clock k] is what [time.time()] returns when the record number [k] of the
    result is built. *)
Definition append_record (clock : nat → Q) (result : list status_record)
    (eid : string) (active : list ScheduledEvent) : list status_record :=
  match active with
  | [] => result
  | e0 :: rest =>
      let next_fire := py_min (fire_time e0) (List.map fire_time rest) in
      result ++
        [{| st_escalation_id := eid;
            st_message := message e0;
            st_pending_count := length active;
            st_next_fire_in := py_max0 (next_fire - clock (length result))%Q |}]
  end.

(** [status] *)
Definition status (clock : nat → Q) (s : EscalationScheduler)
  : list status_record :=
  fold_left
    (fun result kv =>
       append_record clock result (fst kv)
         (active_events (objs s) (heap s) (snd kv)))
    (events_by_id s) [].

(** [shutdown], without the join. *)
Definition shutdown (s : EscalationScheduler) : EscalationScheduler :=
  {| objs := objs s; heap := heap s; events_by_id := events_by_id s;
     running := false |}.

(** [_cleanup_fired_events] *)
Definition _cleanup_fired_events (eid : string) (s : EscalationScheduler)
  : EscalationScheduler :=
  match PyDict.get eid (events_by_id s) with
  | Some events =>
      match active_events (objs s) (heap s) events with
      | [] =>
          {| objs := objs s; heap := heap s;
             events_by_id := PyDict.del eid (events_by_id s);
             running := running s |}
      | _ :: _ => s
      end
  | None => s
  end.

(** [while self.heap and self.heap[0].cancelled: heapq.heappop(self.heap)] *)
Fixpoint pop_cancelled (fuel : nat) (m : list ScheduledEvent) (h : list ref)
  : list ref :=
  match fuel with
  | O => h
  | S fuel' =>
      match h with
      | top :: _ =>
          if is_cancelled m top then
            match Heapq.heappop (event_lt m) h with
            | Some (_, h') => pop_cancelled fuel' m h'
            | None => h
            end
          else h
      | [] => h
      end
  end.

(** How the locked part of one iteration of [_run] ends. *)
Inductive run_outcome :=
| RunBreak                (* [not self.running]: the thread leaves the loop *)
| RunWait                 (* [self.condition.wait(...)]; [continue] *)
| RunPopped (r : ref).    (* the block is left with [next_event] popped *)

(** The [with self.condition:] block of one iteration of [_run]; [now] is the
    value of [time.time()]. *)
Definition _run_locked (now : Q) (s : EscalationScheduler)
  : EscalationScheduler * run_outcome :=
  if negb (running s) then (s, RunBreak)
  else
    let h := pop_cancelled (length (heap s)) (objs s) (heap s) in
    let s1 := {| objs := objs s; heap := h; events_by_id := events_by_id s;
                 running := running s |} in
    match h with
    | [] => (s1, RunWait)
    | next_event :: _ =>
        match objs s !! next_event with
        | Some e =>
            let wait_time := (fire_time e - now)%Q in
            if Qltb 0 wait_time then (s1, RunWait)
            else
              match Heapq.heappop (event_lt (objs s)) h with
              | Some (_, h') =>
                  let s2 := {| objs := objs s; heap := h';
                               events_by_id := events_by_id s;
                               running := running s |} in
                  (_cleanup_fired_events (escalation_id e) s2,
                   RunPopped next_event)
              | None => (s1, RunWait)
              end
        | None => (s1, RunWait)
        end
    end.

(** ** The daemon as a transition system

    Every public operation of the scheduler runs inside
    [with self.condition:], and so does the first part of each iteration of
    [_run]; these are the atomic steps.  The scheduler thread then leaves the
    lock holding [next_event] and only afterwards reads
    [next_event.cancelled]: that read is a step of its own, and client
    operations may come in between. *)

Record Daemon := mkDaemon {
  sched : EscalationScheduler;
  next_event : option ref;   (* popped, [cancelled] not yet inspected *)
  notified : list ref        (* events handed to [notify_callback], latest first *)
}.

Definition daemon_init : Daemon :=
  {| sched := scheduler_init; next_event := None; notified := [] |}.

Inductive action :=
| ActAdd (eid msg : string) (delays : list Z) (now : Q)
| ActCancel (eid : string)
| ActShutdown
| ActRunLocked (now : Q)
| ActRunFire.

(** [if not next_event.cancelled: self.notify_callback(...)] *)
Definition run_fire (d : Daemon) : Daemon :=
  match next_event d with
  | Some r =>
      {| sched := sched d; next_event := None;
         notified := if is_cancelled (objs (sched d)) r then notified d
                     else r :: notified d |}
  | None => d
  end.

Definition step (a : action) (d : Daemon) : Daemon :=
  match a with
  | ActAdd eid msg delays now =>
      {| sched := add eid msg delays now (sched d);
         next_event := next_event d; notified := notified d |}
  | ActCancel eid =>
      {| sched := snd (cancel eid (sched d));
         next_event := next_event d; notified := notified d |}
  | ActShutdown =>
      {| sched := shutdown (sched d);
         next_event := next_event d; notified := notified d |}
  | ActRunLocked now =>
      match next_event d with
      | Some _ => d          (* the thread is not at the top of its loop *)
      | None =>
          match _run_locked now (sched d) with
          | (s', RunPopped r) =>
              {| sched := s'; next_event := Some r; notified := notified d |}
          | (s', _) =>
              {| sched := s'; next_event := None; notified := notified d |}
          end
      end
  | ActRunFire => run_fire d
  end.

(** Run a schedule of steps, first action first. *)
Definition exec (acts : list action) (d : Daemon) : Daemon :=
  fold_left (fun d a => step a d) acts d.


(** ** JSON values, Python truthiness *)

#[local] Unset Elimination Schemes.
Inductive json :=
| JNull
| JBool (b : bool)
| JInt (z : Z)
| JFloat (q : Q)
| JStr (s : string)
| JList (l : list json)
| JDict (d : list (string * json)).
#[local] Set Elimination Schemes.

(** [bool(v)] *)
Definition truthy (v : json) : bool :=
  match v with
  | JNull => false
  | JBool b => b
  | JInt z => negb (Z.eqb z 0)
  | JFloat q => negb (Qeq_bool q 0)
  | JStr s => negb (String.eqb s "")
  | JList l => match l with [] => false | _ => true end
  | JDict d => match d with [] => false | _ => true end
  end.

(** [d.get(k)] with [None] as [JNull], and [d.get(k, default)]. *)
Definition jget (k : string) (d : PyDict.t json) : json :=
  match PyDict.get k d with Some v => v | None => JNull end.

Definition jget_default (k : string) (default : json) (d : PyDict.t json) : json :=
  match PyDict.get k d with Some v => v | None => default end.

(** [a or b] *)
Definition py_or (a b : json) : json := if truthy a then a else b.

(** [v == s] for a string literal [s] *)
Definition is_str (v : json) (s : string) : bool :=
  match v with JStr s' => String.eqb s' s | _ => false end.

Definition as_str (v : json) : option string :=
  match v with JStr s => Some s | _ => None end.

Definition as_int (v : json) : option Z :=
  match v with JInt z => Some z | _ => None end.

Definition as_int_list (v : json) : option (list Z) :=
  match v with
  | JList l => mapM as_int l
  | _ => None
  end.

(** ** PID liveness probe *)

Inductive errno := ESRCH | EPERM | EINVAL.

(** What [os.kill(pid, 0)] does: return, or raise [OSError]. *)
Inductive kill_outcome :=
| KillReturns
| KillOSError (e : errno).

(** [_is_pid_alive]; [os_kill pid] is the outcome of [os.kill(pid, 0)]. *)
Definition _is_pid_alive (os_kill : Z → kill_outcome) (pid : Z) : bool :=
  match os_kill pid with
  | KillReturns => true
  | KillOSError _ => false
  end.

(** ** Session registry and busy check *)

(** [{"pid": pid, "registered_at": time.time()}] *)
Record session := mkSession {
  pid : json;
  registered_at : Q
}.

(** What [psutil] reports for a process: [cpu_percent] and the number of
    children, or one of [NoSuchProcess], [AccessDenied], [ZombieProcess]. *)
Inductive psutil_outcome :=
| PsInfo (cpu : Q) (children : nat)
| PsError.

(** [_is_session_busy] *)
Definition _is_session_busy (has_psutil : bool) (psutil : json → psutil_outcome)
    (sessions : PyDict.t session) (session_id : string) : bool :=
  if negb has_psutil then false
  else
    match PyDict.get session_id sessions with
    | None => false
    | Some sess =>
        if negb (truthy (pid sess)) then false
        else
          match psutil (pid sess) with
          | PsInfo cpu children =>
              let cpu_busy := Qltb 10 cpu in
              let has_children := Nat.ltb 0 children in
              cpu_busy || has_children
          | PsError => false
          end
    end.

(** ** Notifier sink *)

(** [str(n)] for an [int]. *)
Definition str_int (z : Z) : string := NilZero.string_of_int (Z.to_int z).

(** [PO_NOTIFY_SCRIPT], relative to the plugin root. *)
Definition PO_NOTIFY_SCRIPT (plugin_root : string) : string :=
  plugin_root +:+ "/tools/pushover-notify/po_notify.py".

(** The [cmd] list given to [subprocess.run]. *)
Definition notifier_cmd (plugin_root msg : string) (prio : Z) : list string :=
  let title :=
    if Z.ltb prio 2 then "Claude Permission" else "Claude Permission (1hr)" in
  let cmd := [PO_NOTIFY_SCRIPT plugin_root; title; msg; "--priority"; str_int prio] in
  if Z.eqb prio 2 then cmd ++ ["--retry"; "60"; "--expire"; "3600"] else cmd.

(** [_send_notification]: [None] when the session is busy and the
    notification is skipped, otherwise the command that is spawned. *)
Definition _send_notification (has_psutil : bool) (psutil : json → psutil_outcome)
    (sessions : PyDict.t session) (plugin_root : string)
    (eid msg : string) (prio : Z) : option (list string) :=
  if _is_session_busy has_psutil psutil sessions eid then None
  else Some (notifier_cmd plugin_root msg prio).

(** ** RPC commands *)

(** State of an [EscalationService] as far as the commands go. *)
Record EscalationService := mkService {
  scheduler : EscalationScheduler;
  sessions : PyDict.t session;
  svc_running : bool
}.

(** What the world hands to one call of [_handle_command]: [clock k] is the
    value of the call number [k] of [time.time()], [float_str] formats a
    float inside an f-string. *)
Record Env := mkEnv {
  clock : nat → Q;
  float_str : Q → string
}.

(** How [_handle_command] ends: with a reply, or outside the embedding (a
    field whose JSON type is not the annotated one). *)
Inductive cmd_result :=
| Reply (response : json) (svc : EscalationService)
| Untyped.

Definition json_of_status (r : status_record) : json :=
  JDict [("escalation_id", JStr (st_escalation_id r));
         ("message", JStr (st_message r));
         ("pending_count", JInt (Z.of_nat (st_pending_count r)));
         ("next_fire_in", JFloat (st_next_fire_in r))].

(** The dict comprehension of the [status] command; the clock is read twice
    for each session, the first reading is the one subtracted from.  [k] is
    the number of readings taken before. *)
Definition sessions_info (clk : nat → Q) (k : nat) (ss : PyDict.t session)
  : PyDict.t json :=
  snd (fold_left
         (fun (acc : nat * PyDict.t json) (kv : string * session) =>
            let '(k, out) := acc in
            let info := snd kv in
            (k + 2,
             PyDict.set (fst kv)
               (JDict [("pid", pid info);
                       ("registered_at", JFloat (registered_at info));
                       ("age", JFloat (clk k - registered_at info)%Q)])
               out))
         ss (k, [])).

(** [min(self.sessions.items(), key=lambda x: x[1].get("registered_at", 0))]:
    the first entry with the smallest [registered_at]. *)
Definition oldest_session (first : string * session) (rest : PyDict.t session)
  : string * session :=
  fold_left
    (fun best kv =>
       if Qltb (registered_at (snd kv)) (registered_at (snd best)) then kv else best)
    rest first.

(** The locked part of the [unregister_session] command: the sessions left
    and the [session_id] that is reported. *)
Definition unregister (session_id : json) (ss : PyDict.t session)
  : option (PyDict.t session * json) :=
  let fallback :=
    match ss with
    | first :: rest =>
        (* Fallback: remove oldest session if no ID specified *)
        let oldest := oldest_session first rest in
        (PyDict.del (fst oldest) ss, JStr (fst oldest))
    | [] => (ss, session_id)
    end in
  match session_id with
  | JStr sid =>
      if truthy session_id && PyDict.mem sid ss
      then Some (PyDict.del sid ss, session_id)
      else Some fallback
  | JNull => Some fallback
  | _ => None
  end.

(** [_handle_command] *)
Definition _handle_command (env : Env) (cmd : PyDict.t json)
    (svc : EscalationService) : cmd_result :=
  let command := jget_default "command" (JStr "") cmd in
  if is_str command "add" then
    let escalation_id :=
      py_or (jget "escalation_id" cmd) (jget_default "session_id" (JStr "unknown") cmd) in
    let message := jget_default "message" (JStr "Awaiting permission") cmd in
    let delays :=
      match PyDict.get "delays" cmd with
      | Some v => as_int_list v
      | None => Some DEFAULT_DELAYS
      end in
    match as_str escalation_id, as_str message, delays with
    | Some eid, Some msg, Some ds =>
        Reply (JDict [("status", JStr "ok"); ("escalation_id", JStr eid)])
              {| scheduler := add eid msg ds (clock env 0) (scheduler svc);
                 sessions := sessions svc; svc_running := svc_running svc |}
    | _, _, _ => Untyped
    end
  else if is_str command "cancel" then
    let escalation_id :=
      py_or (jget "escalation_id" cmd) (jget_default "session_id" (JStr "") cmd) in
    match as_str escalation_id with
    | Some eid =>
        let '(cancelled, sch) := cancel eid (scheduler svc) in
        Reply (JDict [("status", JStr "ok"); ("cancelled", JBool cancelled)])
              {| scheduler := sch; sessions := sessions svc;
                 svc_running := svc_running svc |}
    | None => Untyped
    end
  else if is_str command "status" then
    let pending := status (clock env) (scheduler svc) in
    let info := sessions_info (clock env) (length pending) (sessions svc) in
    Reply (JDict [("status", JStr "ok");
                  ("pending", JList (List.map json_of_status pending));
                  ("session_count", JInt (Z.of_nat (length info)));
                  ("sessions", JDict info)])
          svc
  else if is_str command "register_session" then
    let session_id :=
      jget_default "session_id" (JStr ("session-" +:+ float_str env (clock env 0))) cmd in
    let pid := jget "pid" cmd in
    match as_str session_id with
    | Some sid =>
        let ss := PyDict.set sid {| pid := pid; registered_at := clock env 1 |}
                             (sessions svc) in
        Reply (JDict [("status", JStr "ok"); ("session_id", JStr sid);
                      ("session_count", JInt (Z.of_nat (length ss)))])
              {| scheduler := scheduler svc; sessions := ss;
                 svc_running := svc_running svc |}
    | None => Untyped
    end
  else if is_str command "unregister_session" then
    let session_id := jget "session_id" cmd in
    match unregister session_id (sessions svc) with
    | Some (ss, session_id) =>
        let count := length ss in
        let should_shutdown := Nat.eqb count 0 in
        Reply (JDict [("status", JStr "ok"); ("session_id", session_id);
                      ("session_count", JInt (Z.of_nat count));
                      ("shutting_down", JBool should_shutdown)])
              {| scheduler := scheduler svc; sessions := ss;
                 svc_running := if should_shutdown then false else svc_running svc |}
    | None => Untyped
    end
  else if is_str command "shutdown" then
    (* Force shutdown regardless of session count *)
    Reply (JDict [("status", JStr "ok"); ("message", JStr "shutting down")])
          {| scheduler := scheduler svc; sessions := sessions svc;
             svc_running := false |}
  else
    match command with
    | JStr command =>
        Reply (JDict [("status", JStr "error");
                      ("message", JStr ("unknown command: " +:+ command))])
              svc
    | _ => Untyped
    end.

(** ** Wire framing *)

(** What the peer does next on the receiving side of a connection. *)
Inductive rx_event :=
| RxData (chunk : list byte)   (* bytes arrive; an empty chunk is end of stream *)
| RxError.                     (* [recv] raises [OSError] (time-out, reset) *)

Record connection := mkConn {
  rx : list rx_event;   (* what is still to come; nothing left is end of stream *)
  tx : list byte;       (* what [sendall] has written *)
  tx_broken : bool;     (* [sendall] raises [OSError] *)
  closed : bool
}.

Inductive recv_result :=
| Received (data : list byte)
| RecvNone                     (* [return None] *)
| RecvOSError.

(** [_recv_exact]: the [while len(data) < n] loop, one [conn.recv] per
    [rx] event; a chunk longer than what is asked for is split. *)
Fixpoint recv_exact_loop (pending : list rx_event) (data : list byte) (n : nat)
  : recv_result * list rx_event :=
  if Nat.ltb (length data) n then
    match pending with
    | [] => (RecvNone, [])
    | RxError :: rest => (RecvOSError, rest)
    | RxData [] :: rest => (RecvNone, rest)
    | RxData chunk :: rest =>
        let want := n - length data in
        if Nat.leb (length chunk) want
        then recv_exact_loop rest (data ++ chunk) n
        else (Received (data ++ take want chunk), RxData (drop want chunk) :: rest)
    end
  else (Received data, pending).

Definition _recv_exact (pending : list rx_event) (n : nat)
  : recv_result * list rx_event :=
  recv_exact_loop pending [] n.

Definition byte_of_N (n : N) : byte :=
  match Byte.of_N (n mod 256) with Some b => b | None => x00 end.

(** [struct.unpack("!I", data)[0]] *)
Definition unpack_u32 (data : list byte) : option N :=
  match data with
  | [b3; b2; b1; b0] =>
      Some (((Byte.to_N b3 * 256 + Byte.to_N b2) * 256 + Byte.to_N b1) * 256
            + Byte.to_N b0)%N
  | _ => None
  end.

(** [struct.pack("!I", n)]; [None] is [struct.error]. *)
Definition pack_u32 (n : N) : option (list byte) :=
  if (n <? 2 ^ 32)%N then
    Some [byte_of_N (n / 2 ^ 24); byte_of_N (n / 2 ^ 16);
          byte_of_N (n / 2 ^ 8); byte_of_N n]
  else None.

(** What [json.loads(data.decode("utf-8"))] does. *)
Inductive loads_result :=
| Loaded (v : json)
| JSONDecodeError
| UnicodeDecodeError.

Inductive message_result :=
| Message (v : json)
| NoMessage               (* [return None] *)
| MessageRaises.          (* an exception the function does not catch *)

(** [_recv_message] *)
Definition _recv_message (loads : list byte → loads_result) (pending : list rx_event)
  : message_result * list rx_event :=
  match _recv_exact pending 4 with
  | (Received length_data, pending1) =>
      match unpack_u32 length_data with
      | Some len =>
          if (1024 * 1024 <? len)%N then (NoMessage, pending1)
          else
            match _recv_exact pending1 (N.to_nat len) with
            | (Received data, pending2) =>
                match loads data with
                | Loaded v => (Message v, pending2)
                | JSONDecodeError => (NoMessage, pending2)
                | UnicodeDecodeError => (MessageRaises, pending2)
                end
            | (_, pending2) => (NoMessage, pending2)
            end
      | None => (NoMessage, pending1)
      end
  | (_, pending1) => (NoMessage, pending1)
  end.

(** [_send_message]: the bytes handed to [sendall]; [Some None] is the
    [return False] after an [OSError], [None] is [struct.error]. *)
Definition _send_message (dumps : json → list byte) (broken : bool) (data : json)
  : option (option (list byte)) :=
  let encoded := dumps data in
  match pack_u32 (N.of_nat (length encoded)) with
  | Some len => if broken then Some None else Some (Some (len ++ encoded))
  | None => None
  end.

(** [_handle_client]: receive one message, answer it when it is truthy,
    close.  Every exception ends in the [finally: conn.close()].  [None]
    when the command is outside the embedding. *)
Definition _handle_client (loads : list byte → loads_result)
    (dumps : json → list byte) (env : Env)
    (svc : EscalationService) (conn : connection)
  : option (EscalationService * connection) :=
  let '(msg, pending) := _recv_message loads (rx conn) in
  let quiet := {| rx := pending; tx := tx conn; tx_broken := tx_broken conn;
                  closed := true |} in
  match msg with
  | Message v =>
      if truthy v then
        match v with
        | JDict cmd =>
            match _handle_command env cmd svc with
            | Reply response svc' =>
                match _send_message dumps (tx_broken conn) response with
                | Some (Some frame) =>
                    Some (svc', {| rx := pending; tx := tx conn ++ frame;
                                   tx_broken := tx_broken conn; closed := true |})
                | _ => Some (svc', quiet)
                end
            | Untyped => None
            end
        | _ => Some (svc, quiet)    (* [cmd.get] raises [AttributeError] *)
        end
      else Some (svc, quiet)
  | _ => Some (svc, quiet)
  end.

(** ** Control CLI *)

Inductive stream := Stdout | Stderr.

(** [cmd_cancel]: what is printed and the exit code.  [is_running] is the
    result of [client.is_running()], [result] that of
    [client.cancel_escalation(args.escalation_id)]. *)
Definition cmd_cancel (is_running : bool) (result : option (PyDict.t json))
    (escalation_id : string) : list (stream * string) * Z :=
  if negb is_running then ([(Stdout, "Service is not running")], 1%Z)
  else
    match result with
    | Some ((_ :: _) as reply) =>
        if is_str (jget "status" reply) "ok" then
          if truthy (jget "cancelled" reply)
          then ([(Stdout, "Cancelled escalation: " +:+ escalation_id)], 0%Z)
          else ([(Stdout, "No escalation found with ID: " +:+ escalation_id)], 0%Z)
        else ([(Stderr, "Failed to cancel escalation")], 1%Z)
    | _ => ([(Stderr, "Failed to cancel escalation")], 1%Z)
    end.

(** ** Session sweep *)

(** The pid handed to [os.kill]: an [int] that fits the C [int] of [pid_t]
    ([True] is the [int] 1).  [None] when [os.kill] raises before it probes:
    [TypeError] for another JSON type, [OverflowError] for an [int] out of
    range; neither is an [OSError]. *)
Definition kill_pid (v : json) : option Z :=
  match v with
  | JInt z => if (Z.leb (- 2 ^ 31) z && Z.ltb z (2 ^ 31))%bool then Some z else None
  | JBool true => Some 1%Z
  | _ => None
  end.

(** The first loop of [_cleanup_dead_sessions]: the ids whose [pid] is truthy
    and not alive, in the order of the registry.  [None] when a probe raises
    something [_is_pid_alive] does not catch. *)
Fixpoint dead_sessions (os_kill : Z → kill_outcome) (ss : PyDict.t session)
  : option (list string) :=
  match ss with
  | [] => Some []
  | (session_id, info) :: rest =>
      if truthy (pid info) then
        match kill_pid (pid info) with
        | Some z =>
            match dead_sessions os_kill rest with
            | Some dead =>
                Some (if _is_pid_alive os_kill z then dead else session_id :: dead)
            | None => None
            end
        | None => None
        end
      else dead_sessions os_kill rest
  end.

(** [_cleanup_dead_sessions]; [None] when the exception of a probe escapes,
    which happens before anything is removed. *)
Definition _cleanup_dead_sessions (os_kill : Z → kill_outcome)
    (svc : EscalationService) : option EscalationService :=
  match dead_sessions os_kill (sessions svc) with
  | Some dead =>
      let ss := fold_left (fun ss session_id => PyDict.del session_id ss)
                          dead (sessions svc) in
      Some {| scheduler := scheduler svc;
              sessions := ss;
              svc_running :=
                match ss, dead with
                | [], _ :: _ => false
                | _, _ => svc_running svc
                end |}
  | None => None
  end.

(** ** Client side ([escalation_client.py]) *)

(** [EscalationClient.send_command]: frame the command, send it, read one
    frame back.  [peer] is the other end of the socket: what it sends for the
    bytes it receives; [send_ok] is false when [sendall] raises [OSError]. *)
Definition send_command (loads : list byte → loads_result)
    (dumps : json → list byte) (send_ok : bool)
    (peer : list byte → list rx_event) (command : json) : message_result :=
  let encoded := dumps command in
  match pack_u32 (N.of_nat (length encoded)) with
  | None => NoMessage
  | Some len =>
      if negb send_ok then NoMessage
      else
        let pending := peer (len ++ encoded) in
        match _recv_exact pending 4 with
        | (Received length_data, pending1) =>
            match unpack_u32 length_data with
            | Some len =>
                if (1024 * 1024 <? len)%N then NoMessage
                else
                  match _recv_exact pending1 (N.to_nat len) with
                  | (Received data, _) =>
                      match loads data with
                      | Loaded v => Message v
                      | JSONDecodeError => NoMessage
                      | UnicodeDecodeError => MessageRaises
                      end
                  | _ => NoMessage
                  end
            | None => NoMessage
            end
        | _ => NoMessage
        end
  end.

(** The service as the peer of a client: one connection, the request in one
    piece, the reply as the service wrote it (nothing written is the end of
    the stream).  For a command outside the embedding the peer is left
    unspecified and shown as a stream that ends at once; the properties
    proved about it are on commands that [_handle_command] answers. *)
Definition service_peer (loads : list byte → loads_result)
    (dumps : json → list byte) (env : Env) (svc : EscalationService)
    (request : list byte) : list rx_event :=
  match _handle_client loads dumps env svc
          {| rx := [RxData request]; tx := []; tx_broken := false;
             closed := false |} with
  | Some (_, conn) => [RxData (tx conn)]
  | None => []
  end.

(** The command built by [EscalationClient.add_escalation]; [delays] is
    left out when it is [None] or empty ([if delays:]). *)
Definition add_escalation_command (escalation_id message : string)
    (delays : option (list Z)) : PyDict.t json :=
  let command := [("command", JStr "add");
                  ("escalation_id", JStr escalation_id);
                  ("message", JStr message)] in
  match delays with
  | Some ((_ :: _) as ds) => PyDict.set "delays" (JList (List.map JInt ds)) command
  | _ => command
  end.

(** The command built by [EscalationClient.cancel_escalation]. *)
Definition cancel_escalation_command (escalation_id : string) : PyDict.t json :=
  [("command", JStr "cancel"); ("escalation_id", JStr escalation_id)].

(** The commands of [EscalationClient.register_session] and
    [EscalationClient.unregister_session]: neither carries a session id or a
    pid. *)
Definition register_session_command : PyDict.t json :=
  [("command", JStr "register_session")].

Definition unregister_session_command : PyDict.t json :=
  [("command", JStr "unregister_session")].

(** ** Hooks ([scripts/hooks])

    What a hook does with the object it read from stdin: return without a
    request, or send one command through the client library.  The fields read
    are strings in the hook's input; anything else is outside the embedding. *)
Inductive hook_result :=
| HookReturns
| HookSends (command : PyDict.t json)
| HookUntyped.

(** [on_permission.py] *)
Module on_permission.
Definition DELAYS : list Z := [60; 3600]%Z.

Definition main (hook_input : PyDict.t json) : hook_result :=
  let notification_type := jget_default "notification_type" (JStr "") hook_input in
  if negb (is_str notification_type "permission_prompt") then HookReturns
  else
    let session_id := jget_default "session_id" (JStr "unknown") hook_input in
    let tool_use_id := jget_default "tool_use_id" (JStr "") hook_input in
    let message :=
      jget_default "message" (JStr "Awaiting permission approval") hook_input in
    match session_id, tool_use_id, message with
    | JStr session_id, JStr tool_use_id, JStr message =>
        let escalation_id :=
          if truthy (JStr tool_use_id)
          then session_id +:+ ":" +:+ tool_use_id
          else session_id in
        HookSends (add_escalation_command escalation_id message (Some DELAYS))
    | _, _, _ => HookUntyped
    end.
End on_permission.

(** [cancel_escalation.py]; [is_running] is the answer of
    [client.is_running()]. *)
Module cancel_escalation.
Definition main (is_running : bool) (hook_input : PyDict.t json) : hook_result :=
  let session_id := jget_default "session_id" (JStr "") hook_input in
  if negb (truthy session_id) then HookReturns
  else if negb is_running then HookReturns
  else
    match session_id with
    | JStr session_id => HookSends (cancel_escalation_command session_id)
    | _ => HookUntyped
    end.
End cancel_escalation.

(** ** Well-formed states *)

(** Every reference kept in the index points to an allocated event. *)
Definition index_wf (s : EscalationScheduler) : Prop :=
  Forall (λ kv : string * list ref, Forall (λ r, r < length (objs s)) (snd kv))
         (events_by_id s).

(** The references the scheduler thread can still act on or has acted on:
    the heap, the popped event and the events handed to the callback. *)
Definition tracked (d : Daemon) : list ref :=
  heap (sched d) ++ option_list (next_event d) ++ notified d.

(** What every reachable state of the daemon satisfies. *)
Definition daemon_inv (d : Daemon) : Prop :=
  index_wf (sched d)
  ∧ NoDup (PyDict.keys (events_by_id (sched d)))
  ∧ Forall (λ r, r < length (objs (sched d))) (tracked d)
  ∧ NoDup (tracked d).

(** The heap invariant of [heapq]: no item is smaller than its parent, the
    parent of position [i] being [(i - 1) >> 1]. *)
Definition is_heap {A} (lt : A → A → bool) (h : list A) : Prop :=
  ∀ i a b, 0 < i → h !! i = Some a → h !! Nat.div2 (i - 1) = Some b →
           lt a b = false.

(** The heap of the scheduler holds allocated events and is a heap for their
    order. *)
Definition heap_ordered (s : EscalationScheduler) : Prop :=
  is_heap (event_lt (objs s)) (heap s)
  ∧ Forall (λ r, r < length (objs s)) (heap s).




(** * Properties *)

(** ** [heapq] keeps the elements *)

Section HeapqFacts.
Context {A : Type} (lt : A → A → bool).
Implicit Types (h : list A) (x : A).

Lemma siftdown_loop_perm fuel h x pos :
  pos < length h →
  Heapq.siftdown_loop lt fuel h x pos ≡ₚ <[pos := x]> h.
Proof.
  revert h pos. induction fuel as [|fuel IH]; intros h pos Hpos; simpl; [done|].
  destruct (Nat.ltb_spec 0 pos) as [Hgt|]; [|done].
  destruct (h !! Nat.div2 (pos - 1)) as [parent|] eqn:Hparent; [|done].
  destruct (lt x parent); [|done].
  assert (Nat.div2 (pos - 1) < pos) as Hlt.
  { pose proof (Nat.div2_decr (pos - 1) (pos - 1)). lia. }
  rewrite IH by (rewrite length_insert; lia).
  rewrite <-(list_insert_insert_eq h pos parent x).
  apply Permutation_insert_swap.
  - by apply list_lookup_insert_eq.
  - rewrite list_lookup_insert_ne by lia. done.
Qed.

Lemma siftdown_perm h pos : Heapq.siftdown lt h pos ≡ₚ h.
Proof.
  unfold Heapq.siftdown. destruct (h !! pos) as [x|] eqn:Hx; [|done].
  rewrite siftdown_loop_perm by eauto using lookup_lt_Some.
  by rewrite list_insert_id.
Qed.

Lemma siftup_loop_perm fuel h pos h' pos' x :
  pos < length h →
  Heapq.siftup_loop lt fuel h pos = (h', pos') →
  pos' < length h' ∧ <[pos' := x]> h' ≡ₚ <[pos := x]> h.
Proof.
  revert h pos. induction fuel as [|fuel IH]; intros h pos Hpos; simpl.
  { intros [= <- <-]. done. }
  destruct (Nat.ltb_spec (pos + (pos + 0) + 1) (length h)) as [Hchild|];
    [|intros [= <- <-]; done].
  set (child := match h !! (pos + (pos + 0) + 1), h !! (pos + (pos + 0) + 1 + 1) with
                | Some c, Some r =>
                    if lt c r then pos + (pos + 0) + 1 else pos + (pos + 0) + 1 + 1
                | _, _ => pos + (pos + 0) + 1
                end).
  destruct (h !! child) as [c|] eqn:Hc; [|intros [= <- <-]; done].
  assert (child ≠ pos) as Hne.
  { subst child. repeat case_match; lia. }
  intros Hrec. apply IH in Hrec as [Hlen Hperm].
  2:{ rewrite length_insert. eauto using lookup_lt_Some. }
  split; [done|]. rewrite Hperm.
  rewrite <-(list_insert_insert_eq h pos c x).
  apply Permutation_insert_swap.
  - by apply list_lookup_insert_eq.
  - rewrite list_lookup_insert_ne by lia. done.
Qed.

Lemma siftup_perm h pos : Heapq.siftup lt h pos ≡ₚ h.
Proof.
  unfold Heapq.siftup. destruct (h !! pos) as [x|] eqn:Hx; [|done].
  destruct (Heapq.siftup_loop lt (length h) h pos) as [h' pos'] eqn:Hloop.
  eapply (siftup_loop_perm _ _ _ _ _ x) in Hloop as [Hlen Hperm];
    [|eauto using lookup_lt_Some].
  rewrite siftdown_loop_perm by (by rewrite length_insert).
  rewrite list_insert_insert_eq, Hperm. by rewrite list_insert_id.
Qed.

(** The counters of the two loops are large enough: more would not change
    the result. *)
Lemma siftdown_loop_fuel fuel fuel' h x pos :
  pos < fuel → pos < fuel' →
  Heapq.siftdown_loop lt fuel h x pos = Heapq.siftdown_loop lt fuel' h x pos.
Proof.
  revert fuel' h pos. induction fuel as [|fuel IH]; intros fuel' h pos Hf Hf'; [lia|].
  destruct fuel' as [|fuel']; [lia|]. simpl.
  destruct (Nat.ltb_spec 0 pos) as [Hgt|]; [|done].
  destruct (h !! Nat.div2 (pos - 1)) as [parent|]; [|done].
  destruct (lt x parent); [|done].
  assert (Nat.div2 (pos - 1) < pos) as Hlt.
  { pose proof (Nat.div2_decr (pos - 1) (pos - 1)). lia. }
  apply IH; lia.
Qed.

Lemma siftup_loop_fuel fuel fuel' h pos :
  (length h - pos ≤ fuel)%nat → (length h - pos ≤ fuel')%nat →
  Heapq.siftup_loop lt fuel h pos = Heapq.siftup_loop lt fuel' h pos.
Proof.
  revert fuel' h pos. induction fuel as [|fuel IH]; intros fuel' h pos Hf Hf'.
  - destruct fuel' as [|fuel']; [done|]. simpl.
    destruct (Nat.ltb_spec (pos + (pos + 0) + 1) (length h)); [lia|done].
  - destruct fuel' as [|fuel']; simpl.
    + destruct (Nat.ltb_spec (pos + (pos + 0) + 1) (length h)); [lia|done].
    + destruct (Nat.ltb_spec (pos + (pos + 0) + 1) (length h)) as [Hchild|]; [|done].
      set (child := match h !! (pos + (pos + 0) + 1), h !! (pos + (pos + 0) + 1 + 1) with
                    | Some c, Some r =>
                        if lt c r then pos + (pos + 0) + 1 else pos + (pos + 0) + 1 + 1
                    | _, _ => pos + (pos + 0) + 1
                    end).
      destruct (h !! child) as [c|] eqn:Hc; [|done].
      assert (pos < child) as Hgt.
      { subst child. repeat case_match; lia. }
      apply IH; rewrite length_insert; lia.
Qed.

Lemma heappush_perm h x : Heapq.heappush lt h x ≡ₚ x :: h.
Proof.
  unfold Heapq.heappush. rewrite siftdown_perm.
  by rewrite Permutation_app_comm.
Qed.

Lemma heappop_None h : Heapq.heappop lt h = None ↔ h = [].
Proof.
  unfold Heapq.heappop. split; [|by intros ->].
  destruct (List.rev h) as [|lastelt rest] eqn:Hrev.
  - intros _. apply (f_equal (@List.rev A)) in Hrev.
    by rewrite List.rev_involutive in Hrev.
  - by destruct (List.rev rest).
Qed.

Lemma heappop_Some h x h' :
  Heapq.heappop lt h = Some (x, h') → head h = Some x ∧ h ≡ₚ x :: h'.
Proof.
  unfold Heapq.heappop.
  destruct (List.rev h) as [|lastelt rest] eqn:Hrev; [done|].
  apply (f_equal (@List.rev A)) in Hrev.
  rewrite List.rev_involutive in Hrev. simpl in Hrev. subst h.
  destruct (List.rev rest) as [|returnitem t]; simpl.
  - intros [= <- <-]. done.
  - intros [= <- <-]. split; [done|].
    rewrite siftup_perm. simpl.
    rewrite (Permutation_app_comm t). simpl. done.
Qed.
End HeapqFacts.

Example heappush_example :
  fold_left (Heapq.heappush Nat.ltb) [5; 3; 8; 1; 4]%nat [] = [1; 3; 8; 5; 4]%nat.
Proof. reflexivity. Qed.

Example heappop_example :
  Heapq.heappop Nat.ltb [1; 3; 8; 5; 4]%nat = Some (1, [3; 4; 8; 5])%nat.
Proof. reflexivity. Qed.

(** ** Dictionaries *)

Section PyDictFacts.
Context {V : Type}.
Implicit Types (d : PyDict.t V) (k : string) (v : V).

Lemma get_del_eq k d : PyDict.get k (PyDict.del k d) = None.
Proof.
  induction d as [|[k' v'] d IH]; simpl; [done|].
  destruct (String.eqb_spec k k') as [->|Hne]; simpl; [done|].
  by destruct (String.eqb_spec k k').
Qed.

Lemma del_absent k d : PyDict.get k d = None → PyDict.del k d = d.
Proof.
  induction d as [|[k' v'] d IH]; simpl; [done|].
  destruct (String.eqb_spec k k') as [->|Hne]; simpl; [done|].
  intros ?. by rewrite IH.
Qed.

Lemma set_absent k v d : PyDict.get k d = None → PyDict.set k v d = d ++ [(k, v)].
Proof.
  induction d as [|[k' v'] d IH]; simpl; [done|].
  destruct (String.eqb_spec k k') as [->|Hne]; [done|].
  intros ?. by rewrite IH.
Qed.

Lemma set_del k v d : PyDict.set k v (PyDict.del k d) = PyDict.del k d ++ [(k, v)].
Proof. apply set_absent, get_del_eq. Qed.

Lemma del_keys k d : Forall (λ kv, fst kv ≠ k) (PyDict.del k d).
Proof.
  unfold PyDict.del. apply Forall_forall. intros [k' v'] Hin.
  apply list_elem_of_In, filter_In in Hin as [_ Hk]. simpl in *.
  destruct (String.eqb_spec k k'); [done|congruence].
Qed.

Lemma del_snoc k v d : PyDict.del k (d ++ [(k, v)]) = PyDict.del k d.
Proof.
  unfold PyDict.del. rewrite List.filter_app. simpl.
  rewrite String.eqb_refl. simpl. by rewrite app_nil_r.
Qed.

Lemma del_del k d : PyDict.del k (PyDict.del k d) = PyDict.del k d.
Proof. apply del_absent, get_del_eq. Qed.

Lemma get_snoc k v d : PyDict.get k d = None → PyDict.get k (d ++ [(k, v)]) = Some v.
Proof.
  induction d as [|[k' v'] d IH]; simpl.
  - by rewrite String.eqb_refl.
  - destruct (String.eqb_spec k k'); [done|auto].
Qed.

Lemma del_subset k d kv : kv ∈ PyDict.del k d → kv ∈ d.
Proof.
  unfold PyDict.del. rewrite !list_elem_of_In, filter_In. tauto.
Qed.

Lemma get_elem_of k v d : PyDict.get k d = Some v → (k, v) ∈ d.
Proof.
  induction d as [|[k' v'] d IH]; simpl; [done|].
  destruct (String.eqb_spec k k') as [->|Hne].
  - intros [= ->]. left.
  - intros ?. right. auto.
Qed.

Lemma del_length k d : (length (PyDict.del k d) ≤ length d)%nat.
Proof. unfold PyDict.del. apply List.filter_length_le. Qed.

Lemma del_present_length k d :
  PyDict.mem k d = true → (length (PyDict.del k d) < length d)%nat.
Proof.
  unfold PyDict.mem.
  induction d as [|[k' v'] d IH]; simpl; [done|].
  destruct (String.eqb_spec k k') as [->|Hne]; simpl.
  - intros _. pose proof (del_length k' d). lia.
  - intros H. apply IH in H. lia.
Qed.
End PyDictFacts.

(** ** Cancellation flags *)

Lemma flag_cancelled_length events m :
  length (flag_cancelled events m) = length m.
Proof.
  revert m. induction events as [|r events IH]; intros m; simpl; [done|].
  unfold flag_cancelled in *. simpl. by rewrite IH, length_alter.
Qed.

Lemma flag_cancelled_lookup_ne events m r :
  r ∉ events → flag_cancelled events m !! r = m !! r.
Proof.
  revert m. induction events as [|r' events IH]; intros m Hnotin; [done|].
  apply not_elem_of_cons in Hnotin as [Hne Hnotin].
  unfold flag_cancelled in *. simpl.
  rewrite IH by done. by rewrite list_lookup_alter_ne.
Qed.

Lemma is_cancelled_alter m r r' :
  is_cancelled m r = true → is_cancelled (alter set_cancelled r' m) r = true.
Proof.
  unfold is_cancelled. destruct (decide (r' = r)) as [->|Hne].
  - rewrite list_lookup_alter_eq. destruct (m !! r); simpl; auto.
  - by rewrite list_lookup_alter_ne.
Qed.

Lemma is_cancelled_flag_mono events m r :
  is_cancelled m r = true → is_cancelled (flag_cancelled events m) r = true.
Proof.
  revert m. induction events as [|r' events IH]; intros m Hc; [done|].
  unfold flag_cancelled in *. simpl. by apply IH, is_cancelled_alter.
Qed.

Lemma is_cancelled_flag_elem events m r :
  r ∈ events → r < length m → is_cancelled (flag_cancelled events m) r = true.
Proof.
  revert m. induction events as [|r' events IH]; intros m Hin Hlt.
  { by apply elem_of_nil in Hin. }
  unfold flag_cancelled in *. simpl.
  destruct (decide (r = r')) as [->|Hne].
  - apply (is_cancelled_flag_mono events). unfold is_cancelled.
    rewrite list_lookup_alter_eq.
    destruct (lookup_lt_is_Some_2 m r' Hlt) as [e ->]. done.
  - apply IH; [|by rewrite length_alter].
    apply elem_of_cons in Hin as [?|?]; done.
Qed.

Lemma is_cancelled_app m m' r :
  is_cancelled m r = true → is_cancelled (m ++ m') r = true.
Proof.
  unfold is_cancelled. destruct (m !! r) as [e|] eqn:He; [|done].
  by rewrite (lookup_app_l_Some _ _ _ _ He).
Qed.

(** ** What [_cancel_internal] leaves behind *)

Lemma cancel_heap eid s : heap (snd (_cancel_internal eid s)) = heap s.
Proof. unfold _cancel_internal. by destruct (PyDict.get eid _). Qed.

Lemma cancel_running eid s : running (snd (_cancel_internal eid s)) = running s.
Proof. unfold _cancel_internal. by destruct (PyDict.get eid _). Qed.

Lemma cancel_index eid s :
  events_by_id (snd (_cancel_internal eid s)) = PyDict.del eid (events_by_id s).
Proof.
  unfold _cancel_internal.
  destruct (PyDict.get eid _) eqn:Hget; simpl; [done|].
  by rewrite del_absent.
Qed.

Lemma cancel_objs_length eid s :
  length (objs (snd (_cancel_internal eid s))) = length (objs s).
Proof.
  unfold _cancel_internal.
  destruct (PyDict.get eid _); simpl; [|done]. apply flag_cancelled_length.
Qed.

Lemma cancel_is_cancelled_mono eid s r :
  is_cancelled (objs s) r = true →
  is_cancelled (objs (snd (_cancel_internal eid s))) r = true.
Proof.
  unfold _cancel_internal.
  destruct (PyDict.get eid _); simpl; [|done]. apply is_cancelled_flag_mono.
Qed.

Lemma cancel_flags_group eid s g r :
  PyDict.get eid (events_by_id s) = Some g → r ∈ g → r < length (objs s) →
  is_cancelled (objs (snd (_cancel_internal eid s))) r = true.
Proof.
  unfold _cancel_internal. intros -> Hin Hlt. simpl.
  by apply is_cancelled_flag_elem.
Qed.

Lemma cancel_found eid s :
  fst (_cancel_internal eid s) = PyDict.mem eid (events_by_id s).
Proof.
  unfold _cancel_internal, PyDict.mem. by destruct (PyDict.get eid _).
Qed.

(** ** The loop of [add] *)

Lemma add_fold now eid msg ds m h evs :
  ∃ h',
    fold_left (add_event now eid msg) ds (m, h, evs)
    = (m ++ List.map (new_event now eid msg) ds, h',
       evs ++ seq (length m) (length ds))
    ∧ h' ≡ₚ seq (length m) (length ds) ++ h.
Proof.
  revert m h evs. induction ds as [|d ds IH]; intros m h evs; simpl.
  { exists h. by rewrite !app_nil_r. }
  edestruct IH as (h' & -> & Hperm). exists h'. split.
  - rewrite length_app. simpl. rewrite <-!app_assoc. simpl.
    by rewrite Nat.add_1_r.
  - rewrite Hperm, length_app, heappush_perm. simpl.
    rewrite Nat.add_1_r. symmetry. apply Permutation_middle.
Qed.

Lemma add_unfold eid msg ds now s :
  let s1 := snd (_cancel_internal eid s) in
  ∃ h',
    add eid msg ds now s
    = {| objs := objs s1 ++ List.map (new_event now eid msg) ds;
         heap := h';
         events_by_id :=
           PyDict.del eid (events_by_id s)
             ++ [(eid, seq (length (objs s)) (length ds))];
         running := running s |}
    ∧ h' ≡ₚ seq (length (objs s)) (length ds) ++ heap s.
Proof.
  intros s1. unfold add. fold s1.
  destruct (add_fold now eid msg ds (objs s1) (heap s1) []) as (h' & -> & Hperm).
  exists h'. subst s1.
  rewrite cancel_index, set_del, cancel_running, cancel_objs_length in *.
  rewrite cancel_heap in Hperm. done.
Qed.


Lemma new_event_priority now eid msg d :
  priority (new_event now eid msg d)
  = if (d =? 60)%Z then 0%Z else if (d =? 3600)%Z then 2%Z else 0%Z.
Proof. reflexivity. Qed.


(** ** C4: what [add] creates *)


(** ** [status] *)

Lemma Qltb_true a b : Qltb a b = true ↔ (a < b)%Q.
Proof.
  unfold Qltb. rewrite negb_true_iff, <-not_true_iff_false, Qle_bool_iff.
  split; [apply Qnot_le_lt|apply Qlt_not_le].
Qed.

Lemma Qltb_false a b : Qltb a b = false ↔ (b <= a)%Q.
Proof. unfold Qltb. by rewrite negb_false_iff, Qle_bool_iff. Qed.




Lemma active_events_ext m1 h1 m2 h2 events :
  Forall (λ r, m1 !! r = m2 !! r ∧ (r ∈ h1 ↔ r ∈ h2)) events →
  active_events m1 h1 events = active_events m2 h2 events.
Proof.
  unfold active_events. induction 1 as [|r events [Hm Hh] _ IH]; csimpl; [done|].
  rewrite Hm, IH. destruct (m2 !! r) as [e|]; [|done].
  by rewrite (bool_decide_ext _ _ Hh).
Qed.

Lemma status_fold_ids clk m h idx acc eid :
  Forall (λ kv, fst kv ≠ eid) idx →
  Forall (λ r, st_escalation_id r ≠ eid) acc →
  Forall (λ r, st_escalation_id r ≠ eid)
    (fold_left
       (λ result kv, append_record clk result (fst kv) (active_events m h (snd kv)))
       idx acc).
Proof.
  intros Hidx. revert acc. induction Hidx as [|kv idx Hkv _ IH]; intros acc Hacc; [done|].
  simpl. apply IH. unfold append_record.
  destruct (active_events m h (snd kv)); [done|].
  apply Forall_app. split; [done|]. by repeat constructor.
Qed.




(** ** C5: [status] right after [add] *)




(** ** C10: [add] with no delays *)




(** ** The scheduler loop *)

Lemma pop_cancelled_perm fuel m h :
  ∃ dropped,
    h ≡ₚ dropped ++ pop_cancelled fuel m h
    ∧ Forall (λ r, is_cancelled m r = true) dropped.
Proof.
  revert h. induction fuel as [|fuel IH]; intros h; simpl.
  { by exists []. }
  destruct h as [|top t]; [by exists []|].
  destruct (is_cancelled m top) eqn:Htop; [|by exists []].
  destruct (Heapq.heappop (event_lt m) (top :: t)) as [[x h']|] eqn:Hpop;
    [|by exists []].
  apply heappop_Some in Hpop as [[= <-] Hperm].
  destruct (IH h') as (dropped & Hh' & Hdropped).
  exists (top :: dropped). split; [|by constructor].
  rewrite Hperm. simpl. by rewrite <-Hh'.
Qed.

(** The counter of [pop_cancelled] is large enough: the loop stops on an
    empty heap or on a top that is not cancelled. *)
Lemma pop_cancelled_stops fuel m h :
  (length h ≤ fuel)%nat →
  match pop_cancelled fuel m h with
  | [] => True
  | top :: _ => is_cancelled m top = false
  end.
Proof.
  revert h. induction fuel as [|fuel IH]; intros h Hlen; simpl.
  { destruct h; [done|simpl in Hlen; lia]. }
  destruct h as [|top t]; [done|].
  destruct (is_cancelled m top) eqn:Htop; [|done].
  destruct (Heapq.heappop (event_lt m) (top :: t)) as [[x h']|] eqn:Hpop.
  - apply heappop_Some in Hpop as [_ Hperm]. apply IH.
    apply Permutation_length in Hperm. simpl in *. lia.
  - by apply heappop_None in Hpop.
Qed.

Lemma cleanup_fired_spec eid s :
  let s' := _cleanup_fired_events eid s in
  objs s' = objs s ∧ heap s' = heap s ∧ running s' = running s
  ∧ (events_by_id s' = events_by_id s
     ∨ events_by_id s' = PyDict.del eid (events_by_id s)).
Proof.
  unfold _cleanup_fired_events.
  destruct (PyDict.get eid _); [|by auto].
  destruct (active_events _ _ _); simpl; auto.
Qed.

(** What one locked iteration of [_run] does to the state. *)
Lemma run_locked_spec now s s' out :
  _run_locked now s = (s', out) →
  objs s' = objs s
  ∧ (events_by_id s' = events_by_id s
     ∨ ∃ eid, events_by_id s' = PyDict.del eid (events_by_id s))
  ∧ ∃ dropped,
      heap s ≡ₚ dropped
                ++ match out with RunPopped r => [r] | _ => [] end
                ++ heap s'.
Proof.
  unfold _run_locked. destruct (running s); simpl.
  2:{ intros [= <- <-]. split; [done|]. split; [by left|]. by exists []. }
  destruct (pop_cancelled_perm (length (heap s)) (objs s) (heap s))
    as (dropped & Hperm & _).
  destruct (pop_cancelled _ _ _) as [|top t] eqn:Hh.
  { intros [= <- <-]. simpl. split; [done|]. split; [by left|]. by exists dropped. }
  destruct (objs s !! top) as [e|].
  2:{ intros [= <- <-]. simpl. split; [done|]. split; [by left|]. by exists dropped. }
  destruct (Qltb 0 (fire_time e - now)).
  { intros [= <- <-]. simpl. split; [done|]. split; [by left|]. by exists dropped. }
  destruct (Heapq.heappop (event_lt (objs s)) (top :: t)) as [[x h']|] eqn:Hpop.
  2:{ intros [= <- <-]. simpl. split; [done|]. split; [by left|]. by exists dropped. }
  apply heappop_Some in Hpop as [[= <-] Hpop].
  intros [= <- <-].
  match goal with |- context [_cleanup_fired_events ?i ?x] =>
    destruct (cleanup_fired_spec i x) as (-> & -> & _ & Hidx) end.
  simpl in *. split; [done|]. split; [destruct Hidx; eauto|].
  exists dropped. by rewrite Hperm, Hpop.
Qed.

(** ** Invariant of the daemon *)

Lemma del_keys_NoDup {V} k (d : PyDict.t V) :
  NoDup (PyDict.keys d) → NoDup (PyDict.keys (PyDict.del k d)).
Proof.
  unfold PyDict.keys, PyDict.del.
  induction d as [|[k' v] d IH]; simpl; [done|].
  rewrite NoDup_cons. intros [Hnotin Hnd].
  destruct (String.eqb k k'); simpl; [auto|].
  apply NoDup_cons. split; [|auto].
  intros Hin. apply Hnotin.
  apply list_elem_of_In, in_map_iff in Hin as ([k'' v''] & <- & Hin).
  apply filter_In in Hin as [Hin _].
  apply list_elem_of_In, in_map_iff. by exists (k'', v'').
Qed.

Lemma index_wf_del eid s s' :
  (length (objs s) ≤ length (objs s'))%nat →
  events_by_id s' = PyDict.del eid (events_by_id s) →
  index_wf s → index_wf s'.
Proof.
  unfold index_wf. intros Hlen -> Hwf.
  apply Forall_forall. intros kv Hkv. apply del_subset in Hkv.
  rewrite Forall_forall in Hwf. specialize (Hwf kv Hkv).
  eapply Forall_impl; [done|]. simpl. intros; lia.
Qed.

Lemma shrink_tracked (P : nat → Prop) (extra l k : list nat) :
  k ≡ₚ extra ++ l →
  Forall P k → NoDup k → Forall P l ∧ NoDup l.
Proof.
  intros -> [_ ?]%Forall_app (_ & _ & ?)%NoDup_app. done.
Qed.

Lemma daemon_inv_init : daemon_inv daemon_init.
Proof.
  unfold daemon_inv, index_wf, tracked. simpl.
  repeat split; constructor.
Qed.

Lemma daemon_inv_add eid msg ds now d :
  daemon_inv d → daemon_inv (step (ActAdd eid msg ds now) d).
Proof.
  intros (Hwf & Hkeys & Hbound & Hnd). unfold daemon_inv, tracked in *. simpl.
  destruct (add_unfold eid msg ds now (sched d)) as (h' & -> & Hperm). simpl.
  set (n := length (objs (sched d))) in *.
  assert (length (objs (snd (_cancel_internal eid (sched d)))
                  ++ List.map (new_event now eid msg) ds) = n + length ds) as Hlen.
  { by rewrite length_app, length_map, cancel_objs_length. }
  rewrite Hlen. split; [|split; [|split]].
  - unfold index_wf. simpl. rewrite Hlen. apply Forall_app. split.
    + apply Forall_forall. intros kv Hkv. apply del_subset in Hkv.
      unfold index_wf in Hwf. rewrite Forall_forall in Hwf.
      specialize (Hwf kv Hkv). eapply Forall_impl; [done|]. simpl. intros; lia.
    + repeat constructor. simpl. apply Forall_forall. intros r Hr.
      apply elem_of_seq in Hr. lia.
  - unfold PyDict.keys. rewrite List.map_app. simpl.
    apply NoDup_app. split; [by apply del_keys_NoDup|]. split; [|repeat constructor; by intros ?%elem_of_nil].
    intros k Hk ->%list_elem_of_singleton.
    apply list_elem_of_In, in_map_iff in Hk as (kv & Hfst & Hkv).
    pose proof (del_keys eid (events_by_id (sched d))) as Hdel.
    rewrite Forall_forall in Hdel. apply (Hdel kv); [by apply list_elem_of_In|done].
  - rewrite Hperm, <-app_assoc. apply Forall_app. split.
    + apply Forall_forall. intros r Hr. apply elem_of_seq in Hr. lia.
    + eapply Forall_impl; [done|]. simpl. intros; lia.
  - rewrite Hperm, <-app_assoc. apply NoDup_app. split; [apply NoDup_seq|].
    split; [|done]. intros r Hr Hr'. apply elem_of_seq in Hr.
    rewrite Forall_forall in Hbound. specialize (Hbound r Hr'). lia.
Qed.

Lemma daemon_inv_cancel eid d :
  daemon_inv d → daemon_inv (step (ActCancel eid) d).
Proof.
  intros (Hwf & Hkeys & Hbound & Hnd). unfold daemon_inv, tracked, cancel in *.
  simpl. rewrite cancel_heap, cancel_objs_length, cancel_index.
  split; [|split; [|done]].
  - eapply index_wf_del; [|apply cancel_index|done].
    by rewrite cancel_objs_length.
  - by apply del_keys_NoDup.
Qed.

Lemma daemon_inv_run_locked now d :
  daemon_inv d → daemon_inv (step (ActRunLocked now) d).
Proof.
  intros Hinv. simpl. destruct (next_event d) eqn:Hnext; [done|].
  destruct (_run_locked now (sched d)) as [s' out] eqn:Hrun.
  apply run_locked_spec in Hrun as (Hobjs & Hidx & dropped & Hperm).
  destruct Hinv as (Hwf & Hkeys & Hbound & Hnd).
  unfold tracked in Hbound, Hnd. rewrite Hnext in Hbound, Hnd. simpl in *.
  assert (index_wf s' ∧ NoDup (PyDict.keys (events_by_id s'))) as [Hwf' Hkeys'].
  { destruct Hidx as [Hidx|[eid Hidx]].
    - unfold index_wf. by rewrite Hidx, Hobjs.
    - split; [eapply index_wf_del; [|done..]; by rewrite Hobjs|].
      rewrite Hidx. by apply del_keys_NoDup. }
  assert (∀ l, heap (sched d) ++ notified d ≡ₚ dropped ++ l ++ notified d →
               Forall (λ r, r < length (objs s')) (l ++ notified d)
               ∧ NoDup (l ++ notified d)) as Hshrink.
  { intros l Hl. rewrite Hobjs. by eapply (shrink_tracked _ dropped). }
  destruct out as [| |r]; unfold daemon_inv, tracked; simpl in *.
  - split; [done|]. split; [done|]. apply Hshrink. by rewrite Hperm, <-app_assoc.
  - split; [done|]. split; [done|]. apply Hshrink. by rewrite Hperm, <-app_assoc.
  - split; [done|]. split; [done|].
    rewrite Hperm in Hbound, Hnd.
    assert ((dropped ++ r :: heap s') ++ notified d
            ≡ₚ dropped ++ heap s' ++ r :: notified d) as Hl.
    { rewrite <-app_assoc. f_equiv. simpl. by rewrite Permutation_middle. }
    rewrite Hobjs. by eapply (shrink_tracked _ dropped).
Qed.

Lemma daemon_inv_run_fire d : daemon_inv d → daemon_inv (run_fire d).
Proof.
  intros (Hwf & Hkeys & Hbound & Hnd). unfold run_fire.
  destruct (next_event d) as [r|] eqn:Hnext; [|by unfold daemon_inv].
  unfold daemon_inv, tracked in *. rewrite Hnext in *. simpl in *.
  split; [done|]. split; [done|].
  destruct (is_cancelled _ r); [|done].
  assert (heap (sched d) ++ r :: notified d
          ≡ₚ [r] ++ heap (sched d) ++ notified d) as Hl.
  { simpl. by rewrite Permutation_middle. }
  by eapply (shrink_tracked _ [r]).
Qed.

Lemma daemon_inv_step a d : daemon_inv d → daemon_inv (step a d).
Proof.
  destruct a.
  - apply daemon_inv_add.
  - apply daemon_inv_cancel.
  - done.
  - apply daemon_inv_run_locked.
  - apply daemon_inv_run_fire.
Qed.

Lemma daemon_inv_exec acts d : daemon_inv d → daemon_inv (exec acts d).
Proof.
  unfold exec. revert d. induction acts as [|a acts IH]; intros d Hd; [done|].
  simpl. by apply IH, daemon_inv_step.
Qed.

(** ** C1: an event fires at most once, a cancelled event never *)

Lemma add_is_cancelled_mono eid msg ds now s r :
  is_cancelled (objs s) r = true →
  is_cancelled (objs (add eid msg ds now s)) r = true.
Proof.
  intros Hc. destruct (add_unfold eid msg ds now s) as (h' & -> & _). simpl.
  by apply is_cancelled_app, cancel_is_cancelled_mono.
Qed.

(** The [cancelled] flag is never reset. *)
Lemma step_is_cancelled_mono a d r :
  is_cancelled (objs (sched d)) r = true →
  is_cancelled (objs (sched (step a d))) r = true.
Proof.
  intros Hc. destruct a; simpl.
  - by apply add_is_cancelled_mono.
  - by apply cancel_is_cancelled_mono.
  - done.
  - destruct (next_event d); [done|].
    destruct (_run_locked now (sched d)) as [s' out] eqn:Hrun.
    apply run_locked_spec in Hrun as (Hobjs & _).
    destruct out; simpl; by rewrite Hobjs.
  - unfold run_fire. by destruct (next_event d).
Qed.

(** A step calls the callback at most for one event, and only for one whose
    flag is not set at that moment. *)
Lemma step_notified a d :
  ∃ fired,
    notified (step a d) = fired ++ notified d
    ∧ Forall (λ r, is_cancelled (objs (sched d)) r = false) fired.
Proof.
  destruct a; simpl; try (by exists []).
  - destruct (next_event d); [by exists []|].
    destruct (_run_locked now (sched d)) as [s' []]; by exists [].
  - unfold run_fire. destruct (next_event d) as [r|]; [|by exists []]. simpl.
    destruct (is_cancelled _ r) eqn:Hc; [by exists []|].
    exists [r]. by repeat constructor.
Qed.

Lemma exec_never_fires_cancelled later d r :
  is_cancelled (objs (sched d)) r = true →
  ∃ fired, notified (exec later d) = fired ++ notified d ∧ r ∉ fired.
Proof.
  unfold exec. revert d. induction later as [|a later IH]; intros d Hc; simpl.
  { exists []. split; [done|]. by intros ?%elem_of_nil. }
  destruct (IH (step a d)) as (fired & -> & Hnotin).
  { by apply step_is_cancelled_mono. }
  destruct (step_notified a d) as (fired' & -> & Hfired').
  exists (fired ++ fired'). split; [by rewrite app_assoc|].
  intros [?|Hin]%elem_of_app; [done|].
  rewrite Forall_forall in Hfired'. specialize (Hfired' r Hin). congruence.
Qed.

(** C1.  In every state [d] the daemon reaches from its start, through any
    interleaving of [add], [cancel], [shutdown], the locked part of a
    scheduler iteration and the check-and-fire that follows it:
    no event has been handed to the notifier callback twice; an event whose
    [cancelled] flag is set in [d] is not handed to the callback in any
    continuation; and if [r] belongs to the group that the index holds for
    [id] in [d], then after a [cancel(id)] or a replacing [add(id, ...)] done
    in [d] no continuation hands [r] to the callback, whether [r] is still in
    the heap or already popped and waiting for its check. *)
Theorem C1_fire_at_most_once_never_cancelled acts :
  let d := exec acts daemon_init in
  NoDup (notified d)
  ∧ (∀ r later,
       is_cancelled (objs (sched d)) r = true →
       ∃ fired, notified (exec later d) = fired ++ notified d ∧ r ∉ fired)
  ∧ (∀ eid group r later,
       PyDict.get eid (events_by_id (sched d)) = Some group →
       r ∈ group →
       (∃ fired,
          notified (exec (ActCancel eid :: later) d) = fired ++ notified d
          ∧ r ∉ fired)
       ∧ (∀ msg ds now,
            ∃ fired,
              notified (exec (ActAdd eid msg ds now :: later) d)
              = fired ++ notified d
              ∧ r ∉ fired)).
Proof.
  intros d.
  assert (daemon_inv d) as (Hwf & _ & _ & Hnd).
  { apply daemon_inv_exec, daemon_inv_init. }
  split; [|split].
  - unfold tracked in Hnd. by apply NoDup_app in Hnd as (_ & _ & (_ & _ & ?)%NoDup_app).
  - intros r later. apply exec_never_fires_cancelled.
  - intros eid group r later Hget Hin.
    assert (r < length (objs (sched d))) as Hlt.
    { unfold index_wf in Hwf. rewrite Forall_forall in Hwf.
      specialize (Hwf _ (get_elem_of _ _ _ Hget)). simpl in Hwf.
      rewrite Forall_forall in Hwf. by apply Hwf. }
    pose proof (cancel_flags_group eid (sched d) group r Hget Hin Hlt) as Hflag.
    split; [|intros msg ds now].
    + apply (exec_never_fires_cancelled later (step (ActCancel eid) d)). done.
    + apply (exec_never_fires_cancelled later (step (ActAdd eid msg ds now) d)).
      simpl. destruct (add_unfold eid msg ds now (sched d)) as (h' & -> & _).
      simpl. by apply is_cancelled_app.
Qed.

(** The theorem on a run where [cancel] comes in between the pop of an event
    and the check of its flag: event 0 of ["S1"] is popped at time 1, then
    ["S1"] is cancelled, then the scheduler thread goes on. *)
Lemma C1_fire_at_most_once_never_cancelled_witness :
  next_event (exec [ActAdd "S1" "hi" [1; 2]%Z 0%Q; ActRunLocked 1%Q] daemon_init)
  = Some 0
  ∧ ∃ fired,
      notified
        (exec (ActCancel "S1" :: [ActRunFire; ActRunLocked 5%Q; ActRunFire])
           (exec [ActAdd "S1" "hi" [1; 2]%Z 0%Q; ActRunLocked 1%Q] daemon_init))
      = fired
        ++ notified
             (exec [ActAdd "S1" "hi" [1; 2]%Z 0%Q; ActRunLocked 1%Q] daemon_init)
      ∧ 0 ∉ fired.
Proof.
  split; [reflexivity|].
  refine (proj1 (proj2 (proj2
    (C1_fire_at_most_once_never_cancelled
       [ActAdd "S1" "hi" [1; 2]%Z 0%Q; ActRunLocked 1%Q]))
    "S1" [0; 1] 0 [ActRunFire; ActRunLocked 5%Q; ActRunFire] _ _)).
  - reflexivity.
  - left.
Defined.

(** Without the [cancel] the same run does fire: both events of ["S1"] reach
    the callback, each once. *)
Example run_without_cancel_fires :
  notified
    (exec [ActAdd "S1" "hi" [1; 2]%Z 0%Q; ActRunLocked 1%Q; ActRunFire;
           ActRunLocked 5%Q; ActRunFire; ActRunLocked 6%Q; ActRunFire]
          daemon_init)
  = [1; 0].
Proof. reflexivity. Qed.

(** A [cancel] that comes after the check is too late for that event, and
    still stops the rest of the group. *)
Example run_cancel_after_check :
  notified
    (exec [ActAdd "S1" "hi" [1; 2]%Z 0%Q; ActRunLocked 1%Q; ActRunFire;
           ActCancel "S1"; ActRunLocked 5%Q; ActRunFire]
          daemon_init)
  = [0].
Proof. reflexivity. Qed.

(** ** C2: a second [add] replaces the group *)

Lemma add_index eid msg ds now s :
  events_by_id (add eid msg ds now s)
  = PyDict.del eid (events_by_id s) ++ [(eid, seq (length (objs s)) (length ds))].
Proof. by destruct (add_unfold eid msg ds now s) as (h' & -> & _). Qed.

Lemma add_lookup_old eid msg ds now s r :
  r < length (objs s) →
  objs (add eid msg ds now s) !! r = objs (snd (_cancel_internal eid s)) !! r.
Proof.
  intros Hlt. destruct (add_unfold eid msg ds now s) as (h' & -> & _). simpl.
  apply lookup_app_l. by rewrite cancel_objs_length.
Qed.

Lemma add_heap_old eid msg ds now s r :
  r < length (objs s) → r ∈ heap (add eid msg ds now s) ↔ r ∈ heap s.
Proof.
  intros Hlt. destruct (add_unfold eid msg ds now s) as (h' & -> & Hperm). simpl.
  rewrite Hperm, elem_of_app, elem_of_seq. intuition lia.
Qed.

Lemma cancel_lookup_ne eid s r :
  (∀ g, PyDict.get eid (events_by_id s) = Some g → r ∉ g) →
  objs (snd (_cancel_internal eid s)) !! r = objs s !! r.
Proof.
  unfold _cancel_internal. intros Hg.
  destruct (PyDict.get eid _) as [g|]; simpl; [|done].
  apply flag_cancelled_lookup_ne. by apply Hg.
Qed.

Lemma status_fold_ext clk m1 h1 m2 h2 idx acc :
  Forall (λ kv : string * list ref,
            active_events m1 h1 (snd kv) = active_events m2 h2 (snd kv)) idx →
  fold_left
    (λ result kv, append_record clk result (fst kv) (active_events m1 h1 (snd kv)))
    idx acc
  = fold_left
      (λ result kv, append_record clk result (fst kv) (active_events m2 h2 (snd kv)))
      idx acc.
Proof.
  intros H. revert acc. induction H as [|kv idx Hkv _ IH]; intros acc; [done|].
  simpl. by rewrite Hkv, IH.
Qed.




(** Scenario S5 of the specification: two [add]s for ["X"] in a row leave one
    group for ["X"], with the second message and two pending events. *)
Example replace_group_S5 :
  status (λ _, 0%Q)
    (add "X" "m2" [10; 3600]%Z 0%Q (add "X" "m1" [10; 3600]%Z 0%Q scheduler_init))
  = [{| st_escalation_id := "X"; st_message := "m2"; st_pending_count := 2;
        st_next_fire_in := 10%Q |}].
Proof. reflexivity. Qed.

(** ** C3: one request, one response *)

(** C3, at the request whose body is the empty object.  The frame
    [00 00 00 02 7b 7d] is well formed and its body decodes to [{}]; [{}] is
    falsy, so the test [if msg:] of [_handle_client] skips the command and
    the reply: nothing is written and the connection is closed. *)
Theorem C3_empty_object_gets_no_response loads dumps env svc :
  loads [x7b; x7d] = Loaded (JDict []) →
  _handle_client loads dumps env svc
    {| rx := [RxData [x00; x00; x00; x02; x7b; x7d]]; tx := [];
       tx_broken := false; closed := false |}
  = Some (svc, {| rx := []; tx := []; tx_broken := false; closed := true |}).
Proof.
  intros Hloads. unfold _handle_client, _recv_message. simpl. by rewrite Hloads.
Qed.

(** The theorem with a decoder that knows the two bytes of [{}]. *)
Lemma C3_empty_object_gets_no_response_witness :
  tx (snd (default (mkService scheduler_init [] true, mkConn [] [] false false)
     (_handle_client
        (λ data, match data with
                 | [x7b; x7d] => Loaded (JDict [])
                 | _ => JSONDecodeError
                 end)
        (λ _, [x7b; x7d]) (mkEnv (λ _, 0%Q) (λ _, "0.0"))
        (mkService scheduler_init [] true)
        {| rx := [RxData [x00; x00; x00; x02; x7b; x7d]]; tx := [];
           tx_broken := false; closed := false |})))
  = [].
Proof.
  rewrite (C3_empty_object_gets_no_response _ _ _ _); reflexivity.
Defined.

(** *** The path of a request that is answered *)

Lemma byte_of_N_to_N n : Byte.to_N (byte_of_N n) = (n mod 256)%N.
Proof.
  unfold byte_of_N. destruct (Byte.of_N (n mod 256)) as [b|] eqn:Hb.
  - by apply Byte.to_of_N.
  - apply Byte.of_N_None_iff in Hb.
    pose proof (N.mod_upper_bound n 256). lia.
Qed.

Lemma unpack_pack_u32 n prefix :
  pack_u32 n = Some prefix → unpack_u32 prefix = Some n ∧ length prefix = 4.
Proof.
  unfold pack_u32. destruct (N.ltb_spec n (2 ^ 32)) as [Hlt|]; [|done].
  intros [= <-]. split; [|done]. unfold unpack_u32. f_equal.
  rewrite !byte_of_N_to_N.
  change (2 ^ 24)%N with 16777216%N. change (2 ^ 16)%N with 65536%N.
  change (2 ^ 8)%N with 256%N. change (2 ^ 32)%N with 4294967296%N in Hlt.
  replace (n / 65536)%N with (n / 256 / 256)%N
    by (by rewrite N.Div0.div_div).
  replace (n / 16777216)%N with (n / 256 / 256 / 256)%N
    by (by rewrite !N.Div0.div_div).
  assert (n / 256 / 256 / 256 < 256)%N as Htop.
  { rewrite !N.Div0.div_div. apply N.Div0.div_lt_upper_bound. simpl. lia. }
  rewrite (N.mod_small (n / 256 / 256 / 256)) by done.
  pose proof (N.div_mod n 256). pose proof (N.div_mod (n / 256) 256).
  pose proof (N.div_mod (n / 256 / 256) 256). lia.
Qed.

Lemma recv_exact_whole data rest :
  _recv_exact (RxData data :: rest) (length data)
  = (Received data, match data with [] => RxData [] :: rest | _ => rest end).
Proof.
  unfold _recv_exact. destruct data as [|b data]; [done|].
  cbn [recv_exact_loop length]. rewrite Nat.sub_0_r.
  destruct (Nat.leb_spec (S (length data)) (S (length data))) as [_|]; [|lia].
  simpl. destruct rest; simpl; by rewrite Nat.ltb_irrefl.
Qed.

Lemma recv_exact_prefix prefix data :
  length prefix = 4 →
  ∃ pending,
    _recv_exact [RxData (prefix ++ data)] 4 = (Received prefix, pending)
    ∧ _recv_exact pending (length data) = (Received data, []).
Proof.
  intros Hlen. destruct prefix as [|b3 [|b2 [|b1 [|b0 [|]]]]]; try done.
  unfold _recv_exact. destruct data as [|b data].
  - exists []. done.
  - exists [RxData (b :: data)]. split; [done|].
    apply (recv_exact_whole (b :: data) []).
Qed.

(** A well-formed request, arriving in one piece, whose body decodes to a
    non-empty object that [_handle_command] answers, gets exactly one frame
    back: the prefix is the length of the encoded reply, the encoded reply
    follows, and the connection is closed. *)
Lemma handle_client_one_response loads dumps env svc data cmd prefix resp svc' :
  (N.of_nat (length data) <= 1024 * 1024)%N →
  pack_u32 (N.of_nat (length data)) = Some prefix →
  loads data = Loaded (JDict cmd) →
  cmd ≠ [] →
  _handle_command env cmd svc = Reply resp svc' →
  (N.of_nat (length (dumps resp)) < 2 ^ 32)%N →
  ∃ reply_prefix,
    _handle_client loads dumps env svc
      {| rx := [RxData (prefix ++ data)]; tx := []; tx_broken := false;
         closed := false |}
    = Some (svc', {| rx := []; tx := reply_prefix ++ dumps resp;
                     tx_broken := false; closed := true |})
    ∧ unpack_u32 reply_prefix = Some (N.of_nat (length (dumps resp))).
Proof.
  intros Hsize Hpack Hloads Hcmd Hreply Hout.
  apply unpack_pack_u32 in Hpack as [Hunpack Hlen].
  destruct (recv_exact_prefix prefix data Hlen) as (pending & Hrecv1 & Hrecv2).
  destruct (pack_u32 (N.of_nat (length (dumps resp)))) as [reply_prefix|] eqn:Hpack.
  2:{ unfold pack_u32 in Hpack. apply N.ltb_lt in Hout. by rewrite Hout in Hpack. }
  exists reply_prefix. split; [|by apply unpack_pack_u32 in Hpack as [? _]].
  unfold _handle_client, _recv_message. cbn [rx]. rewrite Hrecv1, Hunpack.
  destruct (N.ltb_spec (1024 * 1024) (N.of_nat (length data))) as [|_]; [lia|].
  rewrite Nat2N.id, Hrecv2, Hloads.
  destruct cmd as [|kv cmd]; [done|]. cbn [truthy]. rewrite Hreply.
  unfold _send_message. cbn [tx_broken tx]. by rewrite Hpack.
Qed.

(** A non-empty object with no ["command"] takes the other path: it reaches
    [_handle_command] and is answered with the "unknown command" error, in
    one frame whose prefix is the length of the body. *)
Example object_without_command_gets_response :
  _handle_client
    (λ _, Loaded (JDict [("x", JInt 1)]))
    (λ _, [x7b; x7d; x7b])
    (mkEnv (λ _, 0%Q) (λ _, "0.0"))
    (mkService scheduler_init [] true)
    {| rx := [RxData [x00; x00; x00; x07]; RxData [x7b; x22; x78; x22; x3a; x31; x7d]];
       tx := []; tx_broken := false; closed := false |}
  = Some (mkService scheduler_init [] true,
          {| rx := []; tx := [x00; x00; x00; x03; x7b; x7d; x7b];
             tx_broken := false; closed := true |}).
Proof. reflexivity. Qed.

(** ** C6: what the notifier sink is given *)

(** C6 (amended).  When the session is not busy the notifier is spawned with
    the message as it is, whatever its length; the title is
    ["Claude Permission"] for a priority below 2 and
    ["Claude Permission (1hr)"] for priority 2; [--priority] carries the
    priority; for priority 2 the command ends with
    [--retry 60 --expire 3600], for a priority below 2 it has nothing
    more. *)
Theorem C6_notifier_command has_psutil psutil sessions root eid msg prio :
  _is_session_busy has_psutil psutil sessions eid = false →
  (prio < 2 →
     _send_notification has_psutil psutil sessions root eid msg prio
     = Some [PO_NOTIFY_SCRIPT root; "Claude Permission"; msg;
             "--priority"; str_int prio])%Z
  ∧ (prio = 2 →
       _send_notification has_psutil psutil sessions root eid msg prio
       = Some [PO_NOTIFY_SCRIPT root; "Claude Permission (1hr)"; msg;
               "--priority"; "2"; "--retry"; "60"; "--expire"; "3600"])%Z.
Proof.
  intros Hbusy.
  unfold _send_notification, notifier_cmd. rewrite Hbusy. split.
  - intros Hlt. apply Z.ltb_lt in Hlt as Hlt'. rewrite Hlt'.
    destruct (Z.eqb_spec prio 2); [lia|done].
  - intros ->. reflexivity.
Qed.

(** The theorem at scenario S2 of the specification, where no session is
    registered. *)
Lemma C6_notifier_command_witness :
  _send_notification true (λ _, PsError) [] "/plugin" "S2" "hi" 2
  = Some ["/plugin/tools/pushover-notify/po_notify.py"; "Claude Permission (1hr)";
          "hi"; "--priority"; "2"; "--retry"; "60"; "--expire"; "3600"].
Proof.
  destruct (C6_notifier_command true (λ _, PsError) [] "/plugin" "S2" "hi" 2)
    as (_ & H); [reflexivity|].
  rewrite (H eq_refl). reflexivity.
Defined.

(** A message of 1025 characters. *)
Example long_message_length :
  String.length (string_of_list_ascii (repeat "a"%char 1025)) = 1025.
Proof. vm_compute. reflexivity. Qed.

(** The message is not cut at 1024 characters: a message of 1025 characters
    reaches the notifier whole. *)
Lemma C6_truncation_counterexample :
  ∃ cmd dispatched,
    _send_notification true (λ _, PsError) [] "/plugin" "S2"
      (string_of_list_ascii (repeat "a"%char 1025)) 0
    = Some cmd
    ∧ cmd !! 2 = Some dispatched
    ∧ ¬ (String.length dispatched ≤ 1024)%nat.
Proof.
  eexists _, _. split; [reflexivity|]. split; [reflexivity|].
  rewrite long_message_length. lia.
Qed.

(** ** C7: [unregister_session] with an unknown id *)

Lemma oldest_session_elem first rest :
  oldest_session first rest ∈ first :: rest.
Proof.
  unfold oldest_session.
  assert (∀ (best : string * session) l,
            fold_left
              (λ best kv, if Qltb (registered_at (snd kv)) (registered_at (snd best))
                          then kv else best) l best ∈ best :: l) as H.
  { intros best l. revert best. induction l as [|kv l IH]; intros best; simpl.
    - left.
    - destruct (Qltb _ _).
      + right. apply IH.
      + specialize (IH best). apply elem_of_cons in IH as [->|?]; [left|].
        right. by right. }
  apply H.
Qed.

Lemma mem_elem_of {V} (kv : string * V) (d : PyDict.t V) :
  kv ∈ d → PyDict.mem (fst kv) d = true.
Proof.
  unfold PyDict.mem. induction 1 as [[k v] d|[k v] [k' v'] d _ IH]; simpl.
  - by rewrite String.eqb_refl.
  - by destruct (String.eqb k k').
Qed.

(** C7, what the code does.  With a [session_id] that is not in a non-empty
    registry the command does not leave the registry alone: it falls into
    the branch meant for a missing id, removes the oldest session and reports
    that session and a count that is smaller than before. *)
Theorem C7_unknown_id_removes_oldest env svc sid :
  PyDict.mem sid (sessions svc) = false →
  sessions svc ≠ [] →
  ∃ oldest svc',
    _handle_command env
      [("command", JStr "unregister_session"); ("session_id", JStr sid)] svc
    = Reply (JDict [("status", JStr "ok"); ("session_id", JStr oldest);
                    ("session_count", JInt (Z.of_nat (length (sessions svc'))));
                    ("shutting_down",
                     JBool (Nat.eqb (length (sessions svc')) 0))])
            svc'
    ∧ PyDict.mem oldest (sessions svc) = true
    ∧ sessions svc' = PyDict.del oldest (sessions svc)
    ∧ length (sessions svc') < length (sessions svc).
Proof.
  intros Hmem Hne. destruct (sessions svc) as [|first rest] eqn:Hss; [done|].
  set (oldest := oldest_session first rest).
  assert (PyDict.mem (fst oldest) (first :: rest) = true) as Hin.
  { apply mem_elem_of, oldest_session_elem. }
  set (ss := PyDict.del (fst oldest) (first :: rest)).
  exists (fst oldest),
         {| scheduler := scheduler svc; sessions := ss;
            svc_running := if Nat.eqb (length ss) 0 then false else svc_running svc |}.
  split; [|split; [done|split; [done|]]].
  - unfold _handle_command. cbn -[truthy PyDict.mem PyDict.del oldest_session].
    unfold unregister. rewrite Hss, Hmem, andb_false_r.
    cbn -[PyDict.del oldest_session]. reflexivity.
  - by apply del_present_length.
Qed.

(** The theorem at the registry [{"a": ...}] and the request
    [{"command": "unregister_session", "session_id": "zzz"}]: session ["a"]
    is removed and the service shuts down. *)
Lemma C7_unknown_id_removes_oldest_witness :
  _handle_command (mkEnv (λ _, 20%Q) (λ _, "20.0"))
    [("command", JStr "unregister_session"); ("session_id", JStr "zzz")]
    (mkService scheduler_init [("a", mkSession (JInt 4242) 10%Q)] true)
  = Reply (JDict [("status", JStr "ok"); ("session_id", JStr "a");
                  ("session_count", JInt 0); ("shutting_down", JBool true)])
          (mkService scheduler_init [] false).
Proof.
  destruct (C7_unknown_id_removes_oldest (mkEnv (λ _, 20%Q) (λ _, "20.0"))
              (mkService scheduler_init [("a", mkSession (JInt 4242) 10%Q)] true)
              "zzz") as (oldest & svc' & H & _); [reflexivity|done|].
  reflexivity.
Defined.

(** ** C8: the liveness probe *)

(** C8 (amended).  [alive(pid)] is true exactly when the signal-0 probe
    returns; whenever the probe raises [OSError] it is false, whatever the
    error: no such process, permission denied or any other. *)
Theorem C8_alive_iff_probe_returns os_kill pid :
  (_is_pid_alive os_kill pid = true ↔ os_kill pid = KillReturns)
  ∧ (_is_pid_alive os_kill pid = false ↔ ∃ e, os_kill pid = KillOSError e).
Proof.
  unfold _is_pid_alive. destruct (os_kill pid) as [|e].
  - split; [done|]. split; [done|]. by intros [e ?].
  - split; [done|]. split; [|done]. intros _. by exists e.
Qed.

(** The theorem at a probe that returns. *)
Lemma C8_alive_iff_probe_returns_witness :
  _is_pid_alive (λ _, KillReturns) 4242 = true.
Proof.
  apply (proj1 (C8_alive_iff_probe_returns (λ _, KillReturns) 4242)). reflexivity.
Defined.

(** A probe that fails with permission denied makes [alive] false, not
    true. *)
Lemma C8_permission_denied_counterexample :
  (λ _ : Z, KillOSError EPERM) 1%Z = KillOSError EPERM
  ∧ _is_pid_alive (λ _, KillOSError EPERM) 1 ≠ true.
Proof. split; [reflexivity|]. simpl. discriminate. Qed.

(** ** C9: exit code of [cancel] in the control CLI *)

(** C9 (amended).  When the service runs and replies [status = "ok"] with a
    falsy [cancelled], [cmd_cancel] prints "No escalation found with ID: ..."
    and returns 0.  It returns 1 exactly when the service is not running,
    or there is no reply, or the reply is empty or its status is not
    ["ok"]. *)
Theorem C9_cancel_not_found_exits_zero reply eid :
  is_str (jget "status" reply) "ok" = true →
  truthy (jget "cancelled" reply) = false →
  cmd_cancel true (Some reply) eid
  = ([(Stdout, "No escalation found with ID: " +:+ eid)], 0%Z)
  ∧ ∀ is_running result,
      snd (cmd_cancel is_running result eid) = 1%Z
      ↔ (is_running = false
         ∨ result = None
         ∨ ∃ r, result = Some r ∧ is_str (jget "status" r) "ok" = false).
Proof.
  intros Hok Hcancelled. split.
  - unfold cmd_cancel. simpl. destruct reply as [|kv reply]; [done|].
    by rewrite Hok, Hcancelled.
  - intros is_running result. unfold cmd_cancel.
    destruct is_running; simpl; [|split; [by left|done]].
    destruct result as [[|kv r]|]; simpl.
    + split; [|done]. intros _. right. right. by exists [].
    + destruct (is_str (jget "status" (kv :: r)) "ok") eqn:Hs.
      * assert (¬ (true = false ∨ Some (kv :: r) = None
                   ∨ ∃ r0, Some (kv :: r) = Some r0
                           ∧ is_str (jget "status" r0) "ok" = false)) as Hno.
        { intros [?|[?|(r' & [= <-] & ?)]]; congruence. }
        destruct (truthy (jget "cancelled" (kv :: r))); simpl;
          (split; [by intros [=]|by intros ?%Hno]).
      * split; [|done]. intros _. right. right. by exists (kv :: r).
    + split; [|done]. intros _. right. by left.
Qed.

(** The theorem at the reply [{"status": "ok", "cancelled": false}]. *)
Lemma C9_cancel_not_found_exits_zero_witness :
  cmd_cancel true (Some [("status", JStr "ok"); ("cancelled", JBool false)]) "S1"
  = ([(Stdout, "No escalation found with ID: S1")], 0%Z).
Proof.
  apply (C9_cancel_not_found_exits_zero
           [("status", JStr "ok"); ("cancelled", JBool false)] "S1");
    reflexivity.
Defined.

(** The exit code for an id that was not found is 0, not 1. *)
Lemma C9_exit_code_counterexample :
  snd (cmd_cancel true
         (Some [("status", JStr "ok"); ("cancelled", JBool false)]) "S1")
  ≠ 1%Z.
Proof. simpl. discriminate. Qed.

(** * Further properties of the timer engine *)

(** ** [cancel] *)

(** X1.  [cancel(id)] returns whether [id] was indexed.  It never touches the
    heap, the [running] flag or the number of event objects; when [id] is
    not indexed nothing changes at all.  Afterwards [id] is not indexed, so
    a second [cancel(id)] returns [False] and changes nothing. *)
Theorem cancel_found_once eid s :
  fst (cancel eid s) = PyDict.mem eid (events_by_id s)
  ∧ heap (snd (cancel eid s)) = heap s
  ∧ running (snd (cancel eid s)) = running s
  ∧ length (objs (snd (cancel eid s))) = length (objs s)
  ∧ (if PyDict.mem eid (events_by_id s) then True else snd (cancel eid s) = s)
  ∧ PyDict.get eid (events_by_id (snd (cancel eid s))) = None
  ∧ cancel eid (snd (cancel eid s)) = (false, snd (cancel eid s)).
Proof.
  unfold cancel.
  assert (PyDict.get eid (events_by_id (snd (_cancel_internal eid s))) = None) as Hgone.
  { rewrite cancel_index. apply get_del_eq. }
  split; [apply cancel_found|]. split; [apply cancel_heap|].
  split; [apply cancel_running|]. split; [apply cancel_objs_length|].
  split; [|split; [done|]].
  - clear Hgone. unfold PyDict.mem, _cancel_internal.
    by destruct (PyDict.get eid (events_by_id s)).
  - unfold _cancel_internal at 1. by rewrite Hgone.
Qed.

(** ** [status] *)

Lemma py_max0_nonneg v : (0 <= py_max0 v)%Q.
Proof.
  unfold py_max0. destruct (Qltb 0 v) eqn:Hlt; [|apply Qle_refl].
  apply Qltb_true in Hlt. by apply Qlt_le_weak.
Qed.

Lemma active_events_length m h events :
  (length (active_events m h events) ≤ length events)%nat.
Proof.
  unfold active_events. induction events as [|r events IH]; csimpl; [done|].
  destruct (m !! r) as [e|]; [|lia].
  destruct (negb (cancelled e) && bool_decide (r ∈ h)); simpl; lia.
Qed.

Lemma status_fold_sane clk m h idx acc (ids : list string) :
  Forall (λ r, (1 ≤ st_pending_count r)%nat ∧ (0 <= st_next_fire_in r)%Q) acc →
  List.map st_escalation_id acc `sublist_of` ids →
  let out :=
    fold_left
      (λ result kv, append_record clk result (fst kv) (active_events m h (snd kv)))
      idx acc in
  Forall (λ r, (1 ≤ st_pending_count r)%nat ∧ (0 <= st_next_fire_in r)%Q) out
  ∧ List.map st_escalation_id out `sublist_of` ids ++ PyDict.keys idx.
Proof.
  revert acc ids. induction idx as [|kv idx IH]; intros acc ids Hacc Hsub; simpl.
  { by rewrite app_nil_r. }
  replace (ids ++ fst kv :: PyDict.keys idx) with ((ids ++ [fst kv]) ++ PyDict.keys idx)
    by (by rewrite <-app_assoc).
  apply IH.
  - unfold append_record. destruct (active_events m h (snd kv)); [done|].
    apply Forall_app. split; [done|]. apply Forall_singleton. simpl.
    split; [lia|apply py_max0_nonneg].
  - unfold append_record. destruct (active_events m h (snd kv)).
    + by apply sublist_inserts_r.
    + rewrite List.map_app. simpl. by apply sublist_app.
Qed.

(** X2.  Every record of a [status()] view has at least one pending event
    and a [next_fire_in] that is not negative; the ids of the records are a
    subsequence of the keys of the index, in the order of the index, so the
    view has at most one record per index entry; and on every state the
    daemon reaches no id appears in two records. *)
Theorem status_view_is_sane clk s acts :
  Forall (λ r, (1 ≤ st_pending_count r)%nat ∧ (0 <= st_next_fire_in r)%Q)
         (status clk s)
  ∧ List.map st_escalation_id (status clk s)
      `sublist_of` PyDict.keys (events_by_id s)
  ∧ NoDup (List.map st_escalation_id
             (status clk (sched (exec acts daemon_init)))).
Proof.
  assert (∀ s', Forall (λ r, (1 ≤ st_pending_count r)%nat
                             ∧ (0 <= st_next_fire_in r)%Q) (status clk s')
                ∧ List.map st_escalation_id (status clk s')
                    `sublist_of` PyDict.keys (events_by_id s')) as Hsane.
  { intros s'. apply (status_fold_sane clk (objs s') (heap s') (events_by_id s') [] []);
      [constructor|constructor]. }
  destruct (Hsane s) as [H1 H2]. split; [done|]. split; [done|].
  destruct (Hsane (sched (exec acts daemon_init))) as [_ Hsub].
  eapply sublist_NoDup; [|exact Hsub].
  by destruct (daemon_inv_exec acts daemon_init daemon_inv_init) as (_ & ? & _).
Qed.

(** ** [_cleanup_fired_events] *)

Lemma get_unique {V} k (v v' : V) (d : PyDict.t V) :
  NoDup (PyDict.keys d) → PyDict.get k d = Some v → (k, v') ∈ d → v' = v.
Proof.
  unfold PyDict.keys. induction d as [|[k0 v0] d IH]; simpl.
  { by intros _ _ ?%elem_of_nil. }
  rewrite NoDup_cons. intros [Hnotin Hnd].
  destruct (String.eqb_spec k k0) as [->|Hne].
  - intros [= ->] [[= ->]|Hin]%elem_of_cons; [done|].
    exfalso. apply Hnotin. apply list_elem_of_In, in_map_iff.
    exists (k0, v'). by rewrite <-list_elem_of_In.
  - intros Hget [[= -> ->]|Hin]%elem_of_cons; [done|]. by apply IH.
Qed.

Lemma status_fold_del clk m h eid idx acc :
  Forall (λ kv : string * list nat,
            fst kv = eid → active_events m h (snd kv) = []) idx →
  fold_left
    (λ result kv, append_record clk result (fst kv) (active_events m h (snd kv)))
    (PyDict.del eid idx) acc
  = fold_left
      (λ result kv, append_record clk result (fst kv) (active_events m h (snd kv)))
      idx acc.
Proof.
  intros H. revert acc. induction H as [|[k g] idx Hkv _ IH]; intros acc; [done|].
  simpl in *. destruct (String.eqb_spec eid k) as [->|Hne]; simpl.
  - by rewrite Hkv, IH.
  - by rewrite IH.
Qed.

(** X3.  [_cleanup_fired_events] is invisible to [status()]: on an index
    without duplicate keys the view is the same before and after, because
    the only entry it may remove is one that [status()] does not list. *)
Theorem cleanup_keeps_status clk eid s :
  NoDup (PyDict.keys (events_by_id s)) →
  status clk (_cleanup_fired_events eid s) = status clk s.
Proof.
  intros Hnd. unfold _cleanup_fired_events.
  destruct (PyDict.get eid (events_by_id s)) as [events|] eqn:Hget; [|done].
  destruct (active_events (objs s) (heap s) events) eqn:Hactive; [|done].
  unfold status. simpl. apply status_fold_del, Forall_forall.
  intros [k g] Hin Hk. simpl in *. subst k.
  by rewrite (get_unique _ _ _ _ Hnd Hget Hin).
Qed.

(** The theorem on a group whose only event has left the heap. *)
Lemma cleanup_keeps_status_witness :
  events_by_id
    (_cleanup_fired_events "a"
       {| objs := [new_event 0 "a" "m" 1]; heap := [];
          events_by_id := [("a", [0])]; running := true |}) = []
  ∧ status (λ _, 0%Q)
      (_cleanup_fired_events "a"
         {| objs := [new_event 0 "a" "m" 1]; heap := [];
            events_by_id := [("a", [0])]; running := true |})
    = status (λ _, 0%Q)
        {| objs := [new_event 0 "a" "m" 1]; heap := [];
           events_by_id := [("a", [0])]; running := true |}.
Proof.
  split; [reflexivity|].
  apply (cleanup_keeps_status (λ _, 0%Q) "a"). simpl. apply NoDup_singleton.
Defined.

(** ** [add] followed by [cancel] *)

(** X4.  [cancel(id)] undoes an [add(id, ...)] as far as [status()] can
    tell: after [add(id, m, ds); cancel(id)] the view is the one after
    [cancel(id)] alone, and it has no record for [id]. *)
Theorem cancel_after_add_status eid msg ds now clk s :
  index_wf s →
  status clk (snd (cancel eid (add eid msg ds now s)))
  = status clk (snd (cancel eid s))
  ∧ Forall (λ r, st_escalation_id r ≠ eid) (status clk (snd (cancel eid s))).
Proof.
  intros Hwf. unfold cancel, status. split.
  - rewrite !cancel_index, !cancel_heap, add_index, del_snoc, del_del.
    apply status_fold_ext, Forall_forall. intros kv Hkv.
    apply del_subset in Hkv. unfold index_wf in Hwf. rewrite Forall_forall in Hwf.
    specialize (Hwf kv Hkv). apply active_events_ext.
    eapply Forall_impl; [done|]. simpl. intros r Hr. split.
    + rewrite cancel_lookup_ne; [by rewrite add_lookup_old|].
      intros g. rewrite add_index, get_snoc by apply get_del_eq.
      intros [= <-]. rewrite elem_of_seq. lia.
    + by rewrite add_heap_old.
  - rewrite cancel_index. apply status_fold_ids; [apply del_keys|constructor].
Qed.

(** The theorem at scenario S1 of the specification, with a second group
    pending. *)
Lemma cancel_after_add_status_witness :
  status (λ _, 1%Q)
    (snd (cancel "S1:t1"
            (add "S1:t1" "Bash ok?" [60; 3600]%Z 0%Q
               (add "S0" "other" [5]%Z 0%Q scheduler_init))))
  = [{| st_escalation_id := "S0"; st_message := "other";
        st_pending_count := 1; st_next_fire_in := 4%Q |}].
Proof.
  destruct (cancel_after_add_status "S1:t1" "Bash ok?" [60; 3600]%Z 0%Q (λ _, 1%Q)
              (add "S0" "other" [5]%Z 0%Q scheduler_init)) as [-> _].
  - repeat constructor.
  - reflexivity.
Defined.

(** ** After [shutdown] *)

Lemma step_running_false a d :
  running (sched d) = false → running (sched (step a d)) = false.
Proof.
  intros Hrun. destruct a; simpl; try done.
  - destruct (add_unfold eid msg delays now (sched d)) as (h' & -> & _). done.
  - unfold cancel. by rewrite cancel_running.
  - destruct (next_event d); [done|]. unfold _run_locked. by rewrite Hrun.
  - unfold run_fire. by destruct (next_event d).
Qed.

Lemma stopped_idle_never_fires later d :
  running (sched d) = false → next_event d = None →
  notified (exec later d) = notified d.
Proof.
  unfold exec. revert d. induction later as [|a later IH]; intros d Hrun Hnone; [done|].
  simpl. rewrite IH.
  - destruct a; simpl; try done.
    + rewrite Hnone. unfold _run_locked. by rewrite Hrun.
    + unfold run_fire. by rewrite Hnone.
  - by apply step_running_false.
  - destruct a; simpl; try done.
    + rewrite Hnone. unfold _run_locked. by rewrite Hrun.
    + unfold run_fire. by rewrite Hnone.
Qed.

Lemma step_keeps_in_flight a d r :
  a ≠ ActRunFire → next_event d = Some r →
  next_event (step a d) = Some r ∧ notified (step a d) = notified d.
Proof.
  intros Ha Hnext. destruct a; simpl; try done. by rewrite Hnext.
Qed.

(** X5.  Once [running] is cleared, whatever the clients and the scheduler
    thread do next, no event is popped any more: the callback is called at
    most once more, for the event that was already popped and waiting for
    its check when the flag was cleared. *)
Theorem nothing_pops_after_shutdown later d :
  running (sched d) = false →
  notified (exec later d) = notified d
  ∨ ∃ r, next_event d = Some r ∧ notified (exec later d) = r :: notified d.
Proof.
  revert d. induction later as [|a later IH]; intros d Hrun; [by left|].
  destruct (next_event d) as [r|] eqn:Hnext.
  2:{ left. by apply stopped_idle_never_fires. }
  pose proof (step_running_false a d Hrun) as Hrun'.
  change (exec (a :: later) d) with (exec later (step a d)).
  assert (a = ActRunFire ∨ a ≠ ActRunFire) as [->|Ha]
    by (destruct a; auto; by right).
  - rewrite stopped_idle_never_fires; [|done|].
    + simpl. unfold run_fire. rewrite Hnext. simpl.
      destruct (is_cancelled _ r); eauto.
    + simpl. unfold run_fire. by rewrite Hnext.
  - destruct (step_keeps_in_flight a d r Ha Hnext) as [Hnext' Hnot].
    destruct (IH _ Hrun') as [->|(r' & Hr' & ->)]; rewrite Hnot; [by left|].
    right. exists r. split; [done|]. congruence.
Qed.

(** The theorem on a run where [shutdown] comes while both events of a group
    are due: nothing fires afterwards. *)
Lemma nothing_pops_after_shutdown_witness :
  notified
    (exec [ActRunLocked 10%Q; ActRunFire; ActRunLocked 11%Q; ActRunFire]
       (exec [ActAdd "S2" "hi" [1; 2]%Z 0%Q; ActShutdown] daemon_init))
  = [].
Proof.
  destruct (nothing_pops_after_shutdown
              [ActRunLocked 10%Q; ActRunFire; ActRunLocked 11%Q; ActRunFire]
              (exec [ActAdd "S2" "hi" [1; 2]%Z 0%Q; ActShutdown] daemon_init))
    as [->|(r & Hr & _)]; [reflexivity|reflexivity|discriminate Hr].
Defined.

(** ** One iteration of the scheduler loop *)


(** X6.  What the locked part of an iteration of [_run] may do.  The events
    that leave the heap without being returned were all flagged cancelled;
    nothing else is lost and nothing is added.  An event is returned for
    firing only while [running] is set, and then it is not cancelled at that
    moment and it is due ([fire_time <= now]).  When the thread is sent to
    wait, the index is as before and the top of the heap, if there is one,
    is an event that is not cancelled and not yet due.  When [running] is
    cleared, nothing changes. *)
Theorem run_locked_outcome now s s' out :
  _run_locked now s = (s', out) →
  objs s' = objs s
  ∧ (∃ dropped,
       Forall (λ r, is_cancelled (objs s) r = true) dropped
       ∧ heap s ≡ₚ dropped
                   ++ match out with RunPopped r => [r] | _ => [] end
                   ++ heap s')
  ∧ match out with
    | RunPopped r =>
        running s = true
        ∧ ∃ e, objs s !! r = Some e ∧ cancelled e = false
               ∧ (fire_time e <= now)%Q
    | RunWait =>
        running s = true
        ∧ events_by_id s' = events_by_id s
        ∧ match heap s' with
          | [] => True
          | top :: _ =>
              match objs s !! top with
              | Some e => cancelled e = false ∧ (now < fire_time e)%Q
              | None => True
              end
          end
    | RunBreak => running s = false ∧ s' = s
    end.
Proof.
  unfold _run_locked. destruct (running s) eqn:Hrun; simpl.
  2:{ intros [= <- <-]. split; [done|]. split; [by exists []|done]. }
  destruct (pop_cancelled_perm (length (heap s)) (objs s) (heap s))
    as (dropped & Hperm & Hdropped).
  pose proof (pop_cancelled_stops (length (heap s)) (objs s) (heap s) (le_n _)) as Hstop.
  destruct (pop_cancelled _ _ _) as [|top t] eqn:Hh.
  { intros [= <- <-]. simpl. split; [done|]. split; [by exists dropped|done]. }
  unfold is_cancelled in Hstop.
  destruct (objs s !! top) as [e|] eqn:He.
  2:{ intros [= <- <-]. simpl. rewrite He.
      split; [done|]. split; [by exists dropped|done]. }
  destruct (Qltb 0 (fire_time e - now)) eqn:Hwait.
  { intros [= <- <-]. simpl. rewrite He. split; [done|]. split; [by exists dropped|].
    split; [done|]. split; [done|]. split; [done|].
    apply Qltb_true in Hwait. lra. }
  apply Qltb_false in Hwait.
  destruct (Heapq.heappop (event_lt (objs s)) (top :: t)) as [[x h']|] eqn:Hpop.
  2:{ by apply heappop_None in Hpop. }
  apply heappop_Some in Hpop as [[= <-] Hpop].
  intros [= <- <-].
  match goal with |- context [_cleanup_fired_events ?i ?x] =>
    destruct (cleanup_fired_spec i x) as (-> & -> & _ & Hidx) end.
  simpl. split; [done|]. split.
  - exists dropped. split; [done|]. by rewrite Hperm, Hpop.
  - split; [done|]. exists e. split; [done|]. split; [done|]. lra.
Qed.

(** The theorem on a heap whose top is cancelled and whose next event is
    due: the cancelled top is dropped, the due event is returned. *)
Lemma run_locked_outcome_witness :
  ∃ s',
    _run_locked 10%Q
      (snd (cancel "a" (add "b" "later" [5]%Z 0%Q
                          (add "a" "first" [1]%Z 0%Q scheduler_init))))
    = (s', RunPopped 1)
    ∧ heap s' = [].
Proof.
  eexists. split; [reflexivity|].
  pose proof (run_locked_outcome 10%Q
                (snd (cancel "a" (add "b" "later" [5]%Z 0%Q
                                    (add "a" "first" [1]%Z 0%Q scheduler_init))))
                _ _ eq_refl) as (_ & _ & Hrun & _).
  reflexivity.
Defined.

(** ** [heapq] keeps the heap invariant *)

Lemma parent_spec i :
  0 < i → 2 * Nat.div2 (i - 1) + 1 = i ∨ 2 * Nat.div2 (i - 1) + 2 = i.
Proof.
  intros Hi. pose proof (Nat.div2_odd (i - 1)) as H.
  destruct (Nat.odd (i - 1)); simpl in H; lia.
Qed.

Lemma parent_of_child p c :
  c = 2 * p + 1 ∨ c = 2 * p + 2 → Nat.div2 (c - 1) = p.
Proof.
  intros Hc. assert (0 < c) as H0 by lia.
  destruct (parent_spec c H0); lia.
Qed.

Section HeapOrder.
Context {A : Type} (lt : A → A → bool) (P : A → Prop).
Hypothesis lt_asym : ∀ a b, lt a b = true → lt b a = false.
Hypothesis le_trans :
  ∀ a b c, P a → P b → P c → lt b a = false → lt c b = false → lt c a = false.
Implicit Types (h : list A) (x : A).

Lemma lookup_swapped h i j x y k :
  h !! i = Some x → h !! j = Some y → i ≠ j →
  <[j := x]> (<[i := y]> h) !! k
  = if decide (k = j) then Some x else if decide (k = i) then Some y else h !! k.
Proof.
  intros Hi Hj Hne. apply lookup_lt_Some in Hi as Hi'. apply lookup_lt_Some in Hj as Hj'.
  repeat case_decide; subst.
  - apply list_lookup_insert_eq. by rewrite length_insert.
  - rewrite list_lookup_insert_ne by done. by apply list_lookup_insert_eq.
  - by rewrite !list_lookup_insert_ne.
Qed.

(** The value found at the position being filled does not matter. *)
Lemma siftdown_loop_hole fuel h x y pos :
  Heapq.siftdown_loop lt fuel (<[pos := y]> h) x pos
  = Heapq.siftdown_loop lt fuel h x pos.
Proof.
  revert h y pos. induction fuel as [|fuel IH]; intros h y pos; simpl.
  { by rewrite list_insert_insert_eq. }
  destruct (Nat.ltb_spec 0 pos) as [Hgt|]; [|by rewrite list_insert_insert_eq].
  assert (Nat.div2 (pos - 1) ≠ pos) as Hne by (destruct (parent_spec pos Hgt); lia).
  rewrite list_lookup_insert_ne by done.
  destruct (h !! Nat.div2 (pos - 1)) as [parent|]; [|by rewrite list_insert_insert_eq].
  destruct (lt x parent); by rewrite list_insert_insert_eq.
Qed.

(** [_siftdown] repairs a list that is a heap but for the item at [pos],
    which may be smaller than its parent. *)
Lemma siftdown_loop_heap fuel h x pos :
  pos < fuel → h !! pos = Some x → Forall P h →
  (∀ i a b, 0 < i → i ≠ pos → h !! i = Some a → h !! Nat.div2 (i - 1) = Some b →
            lt a b = false) →
  (∀ c a b, 0 < pos → 0 < c → Nat.div2 (c - 1) = pos →
            h !! c = Some a → h !! Nat.div2 (pos - 1) = Some b → lt a b = false) →
  is_heap lt (Heapq.siftdown_loop lt fuel h x pos).
Proof.
  revert h pos. induction fuel as [|fuel IH]; intros h pos Hfuel Hx HP J1 J2; [lia|].
  simpl. rewrite (list_insert_id h pos x Hx).
  destruct (Nat.ltb_spec 0 pos) as [Hgt|Hz].
  2:{ intros i a b Hi. apply J1; [done|lia]. }
  pose proof (parent_spec pos Hgt) as Hpp.
  remember (Nat.div2 (pos - 1)) as pp eqn:Epp.
  destruct (h !! pp) as [p|] eqn:Hp.
  2:{ apply lookup_ge_None in Hp. apply lookup_lt_Some in Hx. lia. }
  destruct (lt x p) eqn:Hlt.
  2:{ intros i a b Hi Ha Hb. destruct (decide (i = pos)) as [->|Hne].
      - rewrite <-Epp in Hb. by simplify_eq.
      - by eapply J1. }
  assert (pos ≠ pp) as Hne by lia.
  assert (∀ i a, h !! i = Some a → P a) as HPl.
  { intros i a Ha. rewrite Forall_forall in HP. by eapply HP, list_elem_of_lookup_2. }
  pose proof (HPl _ _ Hx) as HPx. pose proof (HPl _ _ Hp) as HPp.
  rewrite <-(siftdown_loop_hole fuel (<[pos := p]> h) x x pp).
  apply IH.
  - lia.
  - apply list_lookup_insert_eq. rewrite length_insert. by eapply lookup_lt_Some.
  - apply Forall_insert; [by apply Forall_insert|done].
  - intros i a b Hi Hipp. rewrite !(lookup_swapped h pos pp x p) by done.
    pose proof (parent_spec i Hi) as Hpi.
    rewrite decide_False by done.
    destruct (decide (i = pos)) as [->|Hipos].
    + rewrite <-Epp, decide_True by done. intros [= <-] [= <-]. by apply lt_asym.
    + intros Ha. destruct (decide (Nat.div2 (i - 1) = pp)) as [Hpar|Hpar].
      * intros [= <-]. apply (le_trans x p a); eauto.
        eapply (J1 i); eauto. by rewrite Hpar.
      * destruct (decide (Nat.div2 (i - 1) = pos)) as [Hpar'|Hpar'].
        -- intros [= <-]. by eapply (J2 i).
        -- intros Hb. by eapply (J1 i).
  - intros c a b Hpos Hc Hcp. rewrite !(lookup_swapped h pos pp x p) by done.
    pose proof (parent_spec c Hc) as Hpc. pose proof (parent_spec pp Hpos) as Hppp.
    rewrite (decide_False (P:=c = pp)) by lia.
    rewrite (decide_False (P:=Nat.div2 (pp - 1) = pp)) by lia.
    rewrite (decide_False (P:=Nat.div2 (pp - 1) = pos)) by lia.
    intros Ha Hb.
    assert (lt p b = false) as Hpb by (eapply (J1 pp); eauto).
    destruct (decide (c = pos)) as [->|Hcpos]; [by simplify_eq|].
    apply (le_trans b p a); eauto.
    eapply (J1 c); eauto. by rewrite Hcp.
Qed.

Lemma heappush_heap h x :
  is_heap lt h → Forall P h → P x → is_heap lt (Heapq.heappush lt h x).
Proof.
  intros Hheap HP HPx. unfold Heapq.heappush, Heapq.siftdown.
  rewrite list_lookup_middle by done. apply siftdown_loop_heap.
  - lia.
  - by apply list_lookup_middle.
  - apply Forall_app. split; [done|by constructor].
  - intros i a b Hi Hne Ha Hb.
    assert (i < length h).
    { apply lookup_lt_Some in Ha. rewrite length_app in Ha. simpl in Ha. lia. }
    pose proof (parent_spec i Hi).
    rewrite lookup_app_l in Ha, Hb by lia. by eapply Hheap.
  - intros c a b _ Hc Hcp Ha. apply lookup_lt_Some in Ha.
    rewrite length_app in Ha. simpl in Ha. pose proof (parent_spec c Hc). lia.
Qed.

(** The loop of [_siftup] leaves a list that is a heap but for the leaf it
    stops at, whose value is still to be written. *)
Lemma siftup_loop_heap fuel h pos h' pos' :
  (length h - pos ≤ fuel)%nat → pos < length h → Forall P h →
  (∀ i a b, 0 < i → i ≠ pos → Nat.div2 (i - 1) ≠ pos →
            h !! i = Some a → h !! Nat.div2 (i - 1) = Some b → lt a b = false) →
  (∀ c a b, 0 < pos → 0 < c → Nat.div2 (c - 1) = pos →
            h !! c = Some a → h !! Nat.div2 (pos - 1) = Some b → lt a b = false) →
  Heapq.siftup_loop lt fuel h pos = (h', pos') →
  pos' < length h' ∧ (length h' ≤ 2 * pos' + 1)%nat ∧ Forall P h'
  ∧ (∀ i a b, 0 < i → i ≠ pos' → Nat.div2 (i - 1) ≠ pos' →
              h' !! i = Some a → h' !! Nat.div2 (i - 1) = Some b → lt a b = false).
Proof.
  revert h pos. induction fuel as [|fuel IH]; intros h pos Hfuel Hpos HP K1 K2; [lia|].
  simpl.
  destruct (Nat.ltb_spec (pos + (pos + 0) + 1) (length h)) as [Hchild|Hleaf].
  2:{ intros [= <- <-]. repeat split; [done|lia|done|done]. }
  set (l := pos + (pos + 0) + 1) in *.
  destruct (lookup_lt_is_Some_2 h l Hchild) as [lv Hl]. rewrite Hl.
  assert (∀ i a, h !! i = Some a → P a) as HPl.
  { intros i a Ha. rewrite Forall_forall in HP. by eapply HP, list_elem_of_lookup_2. }
  assert (∃ c cv, (c = l ∨ c = l + 1) ∧ h !! c = Some cv
                  ∧ (∀ o ov, (o = l ∨ o = l + 1) → o ≠ c → h !! o = Some ov →
                             lt ov cv = false)
                  ∧ match h !! (l + 1) with
                    | Some r => if lt lv r then l else l + 1
                    | None => l
                    end = c) as (c & cv & Hc & Hcv & Hsmall & ->).
  { destruct (h !! (l + 1)) as [rv|] eqn:Hr.
    - destruct (lt lv rv) eqn:Hlr.
      + exists l, lv. (split; [by left|]; split; [done|]; split; [|done]).
        intros o ov [-> | ->] Ho Hov; [done|]. simplify_eq. by apply lt_asym.
      + exists (l + 1), rv. (split; [by right|]; split; [done|]; split; [|done]).
        intros o ov [-> | ->] Ho Hov; [|done]. by simplify_eq.
    - exists l, lv. (split; [by left|]; split; [done|]; split; [|done]).
      intros o ov [-> | ->] Ho Hov; [done|]. by simplify_eq. }
  rewrite Hcv. intros Hrec.
  assert (c < length h) as Hclen by (by eapply lookup_lt_Some).
  apply IH in Hrec; [done|rewrite length_insert; lia|by rewrite length_insert
                    |apply Forall_insert; eauto| |].
  - intros i a b Hi Hic Hpc. pose proof (parent_spec i Hi) as Hpi.
    destruct (decide (i = pos)) as [->|Hipos].
    + rewrite list_lookup_insert_eq by done.
      rewrite list_lookup_insert_ne by lia. intros [= <-] Hb.
      eapply (K2 c); eauto; [lia|]. apply parent_of_child. subst l. lia.
    + rewrite list_lookup_insert_ne by done. intros Ha.
      destruct (decide (Nat.div2 (i - 1) = pos)) as [Hpar|Hpar].
      * rewrite Hpar, list_lookup_insert_eq by done. intros [= <-].
        eapply (Hsmall i); eauto. subst l. lia.
      * rewrite list_lookup_insert_ne by done. intros Hb. by eapply (K1 i).
  - intros g a b _ Hg Hgc. pose proof (parent_spec g Hg) as Hpg.
    rewrite (parent_of_child pos c) by (subst l; lia).
    rewrite list_lookup_insert_ne by (subst l; lia).
    rewrite list_lookup_insert_eq by done. intros Ha [= <-].
    eapply (K1 g); eauto; [subst l; lia..|by rewrite Hgc].
Qed.

(** [_siftup] at the root repairs a list that is a heap but for its root. *)
Lemma siftup_root_heap h x :
  h !! 0 = Some x → Forall P h →
  (∀ i a b, 0 < i → Nat.div2 (i - 1) ≠ 0 →
            h !! i = Some a → h !! Nat.div2 (i - 1) = Some b → lt a b = false) →
  is_heap lt (Heapq.siftup lt h 0).
Proof.
  intros Hx HP K1. unfold Heapq.siftup. rewrite Hx.
  destruct (Heapq.siftup_loop lt (length h) h 0) as [h' pos'] eqn:Hloop.
  apply siftup_loop_heap in Hloop as (Hlen & Hleaf & HP' & K1');
    [|lia|by eapply lookup_lt_Some|done|intros; by eapply K1|intros; lia].
  assert (P x) as HPx.
  { rewrite Forall_forall in HP. by eapply HP, list_elem_of_lookup_2. }
  apply siftdown_loop_heap.
  - lia.
  - by apply list_lookup_insert_eq.
  - by apply Forall_insert.
  - intros i a b Hi Hne. pose proof (parent_spec i Hi).
    rewrite list_lookup_insert_ne by done. intros Ha.
    assert (i < length h') by (by eapply lookup_lt_Some).
    rewrite list_lookup_insert_ne by lia. intros Hb. eapply (K1' i); eauto. lia.
  - intros c a b _ Hc Hcp Ha. pose proof (parent_spec c Hc).
    apply lookup_lt_Some in Ha. rewrite length_insert in Ha. lia.
Qed.

(** The root of a heap is a smallest item. *)
Lemma heap_root_min h x :
  is_heap lt h → Forall P h → h !! 0 = Some x →
  ∀ i y, h !! i = Some y → lt y x = false.
Proof.
  intros Hheap HP Hx i.
  assert (∀ j a, h !! j = Some a → P a) as HPl.
  { intros j a Ha. rewrite Forall_forall in HP. by eapply HP, list_elem_of_lookup_2. }
  induction i as [i IH] using lt_wf_ind. intros y Hy.
  destruct (decide (i = 0)) as [->|Hi].
  - rewrite Hx in Hy. injection Hy as <-.
    destruct (lt x x) eqn:Hxx; [|done]. apply lt_asym in Hxx as Hxx'. congruence.
  - assert (0 < i) as Hpos by lia. pose proof (parent_spec i Hpos).
    destruct (lookup_lt_is_Some_2 h (Nat.div2 (i - 1))) as [b Hb].
    { apply lookup_lt_Some in Hy. lia. }
    apply (le_trans x b y); [by eauto..| |].
    + eapply IH; [|done]. lia.
    + by eapply (Hheap i).
Qed.

Lemma heappop_heap h x h' :
  is_heap lt h → Forall P h → Heapq.heappop lt h = Some (x, h') →
  is_heap lt h' ∧ Forall (λ y, lt y x = false) h'.
Proof.
  intros Hheap HP Hpop.
  assert (Forall (λ y, lt y x = false) h') as Hmin.
  { apply heappop_Some in Hpop as [Hhd Hperm].
    apply Forall_forall. intros y Hy.
    assert (y ∈ h) as [i Hi]%list_elem_of_lookup_1 by (rewrite Hperm; by right).
    eapply heap_root_min; eauto. by destruct h; simplify_eq. }
  split; [|done]. revert Hpop. unfold Heapq.heappop.
  destruct (List.rev h) as [|lastelt rest] eqn:Hrev; [done|].
  apply (f_equal (@List.rev A)) in Hrev.
  rewrite List.rev_involutive in Hrev. simpl in Hrev. subst h.
  destruct (List.rev rest) as [|returnitem t]; simpl.
  { intros [= <- <-]. by intros i a b _ ?. }
  intros [= <- <-]. apply (siftup_root_heap _ lastelt).
  - done.
  - apply Forall_app in HP as [HP Hlast]. apply Forall_cons in HP as [_ HP].
    constructor; [by inversion Hlast|done].
  - intros i a b Hi Hpar. pose proof (parent_spec i Hi).
    destruct i as [|i]; [lia|]. destruct (Nat.div2 (S i - 1)) as [|j] eqn:Hj; [done|].
    simpl. intros Ha Hb. eapply (Hheap (S i)); [lia| |].
    + simpl. by apply lookup_app_l_Some.
    + rewrite Hj. simpl. by apply lookup_app_l_Some.
Qed.
End HeapOrder.

(** ** The scheduler pops the earliest event *)

Lemma event_lt_asym m a b : event_lt m a b = true → event_lt m b a = false.
Proof.
  unfold event_lt. destruct (m !! a) as [ea|], (m !! b) as [eb|]; try done.
  rewrite Qltb_true, Qltb_false. apply Qlt_le_weak.
Qed.

Lemma event_le_trans m a b c :
  a < length m → b < length m → c < length m →
  event_lt m b a = false → event_lt m c b = false → event_lt m c a = false.
Proof.
  intros [ea Ha]%lookup_lt_is_Some_2 [eb Hb]%lookup_lt_is_Some_2
         [ec Hc]%lookup_lt_is_Some_2.
  unfold event_lt. rewrite Ha, Hb, Hc, !Qltb_false. intros. by eapply Qle_trans.
Qed.

Lemma is_heap_ext {A} (lt lt' : A → A → bool) h :
  (∀ a b, a ∈ h → b ∈ h → lt a b = lt' a b) → is_heap lt h → is_heap lt' h.
Proof.
  intros Hext Hheap i a b Hi Ha Hb. rewrite <-Hext; eauto using list_elem_of_lookup_2.
Qed.

Lemma flag_cancelled_fire_time events m r :
  fire_time <$> flag_cancelled events m !! r = fire_time <$> m !! r.
Proof.
  revert m. induction events as [|r' events IH]; intros m; [done|].
  unfold flag_cancelled in *. simpl. rewrite IH.
  destruct (decide (r' = r)) as [->|Hne].
  - rewrite list_lookup_alter_eq. by destruct (m !! r).
  - by rewrite list_lookup_alter_ne.
Qed.

Lemma event_lt_fire_time m m' a b :
  fire_time <$> m' !! a = fire_time <$> m !! a →
  fire_time <$> m' !! b = fire_time <$> m !! b →
  event_lt m' a b = event_lt m a b.
Proof.
  unfold event_lt.
  destruct (m' !! a), (m !! a), (m' !! b), (m !! b); simpl; intros; simplify_eq;
    try done; congruence.
Qed.

Lemma heap_ordered_objs m m' h :
  (∀ r, r < length m → fire_time <$> m' !! r = fire_time <$> m !! r) →
  (length m ≤ length m')%nat →
  is_heap (event_lt m) h ∧ Forall (λ r, r < length m) h →
  is_heap (event_lt m') h ∧ Forall (λ r, r < length m') h.
Proof.
  intros Hsame Hlen [Hheap Hvalid]. split.
  - apply (is_heap_ext (event_lt m)); [|done]. rewrite Forall_forall in Hvalid.
    intros a b Ha Hb. symmetry. apply event_lt_fire_time; apply Hsame; auto.
  - eapply Forall_impl; [done|]. simpl. intros; lia.
Qed.

Lemma heap_ordered_cancel eid s :
  heap_ordered s → heap_ordered (snd (_cancel_internal eid s)).
Proof.
  unfold heap_ordered. rewrite cancel_heap. apply heap_ordered_objs.
  - intros r _. unfold _cancel_internal.
    destruct (PyDict.get eid _); simpl; [apply flag_cancelled_fire_time|done].
  - by rewrite cancel_objs_length.
Qed.

Lemma add_fold_heap now eid msg ds m h evs :
  is_heap (event_lt m) h ∧ Forall (λ r, r < length m) h →
  let '(m', h', _) := fold_left (add_event now eid msg) ds (m, h, evs) in
  is_heap (event_lt m') h' ∧ Forall (λ r, r < length m') h'.
Proof.
  revert m h evs. induction ds as [|d ds IH]; intros m h evs Hord; [done|].
  simpl. apply IH.
  apply (heap_ordered_objs m (m ++ [new_event now eid msg d])) in Hord
    as [Hheap Hvalid].
  2:{ intros r Hr. by rewrite lookup_app_l. }
  2:{ rewrite length_app. lia. }
  assert (length m < length (m ++ [new_event now eid msg d])) as Hlen.
  { rewrite length_app. simpl. lia. }
  split.
  - apply (heappush_heap _ (λ r, r < length (m ++ [new_event now eid msg d])));
      [apply event_lt_asym|apply event_le_trans|done..].
  - rewrite heappush_perm. by constructor.
Qed.

Lemma heap_ordered_add eid msg ds now s :
  heap_ordered s → heap_ordered (add eid msg ds now s).
Proof.
  intros Hord%(heap_ordered_cancel eid). unfold add, heap_ordered in *.
  pose proof (add_fold_heap now eid msg ds _ _ [] Hord) as H.
  by destruct (fold_left _ _ _) as [[m' h'] evs'].
Qed.

Lemma pop_cancelled_heap fuel m h :
  is_heap (event_lt m) h ∧ Forall (λ r, r < length m) h →
  is_heap (event_lt m) (pop_cancelled fuel m h)
  ∧ Forall (λ r, r < length m) (pop_cancelled fuel m h).
Proof.
  revert h. induction fuel as [|fuel IH]; intros h [Hheap Hvalid]; simpl; [done|].
  destruct h as [|top t]; [done|].
  destruct (is_cancelled m top); [|done].
  destruct (Heapq.heappop (event_lt m) (top :: t)) as [[x h']|] eqn:Hpop; [|done].
  apply IH. split.
  - eapply (heappop_heap _ (λ r, r < length m)); eauto using event_lt_asym.
    apply event_le_trans.
  - apply heappop_Some in Hpop as [_ Hperm]. rewrite Hperm in Hvalid.
    by apply Forall_cons in Hvalid as [_ ?].
Qed.

Lemma heap_ordered_run_locked now s s' out :
  _run_locked now s = (s', out) → heap_ordered s → heap_ordered s'.
Proof.
  intros Hrun Hord. unfold heap_ordered.
  destruct (run_locked_spec _ _ _ _ Hrun) as (-> & _ & _).
  revert Hrun. unfold _run_locked. destruct (running s); simpl;
    [|by intros [= <- <-]].
  pose proof (pop_cancelled_heap (length (heap s)) (objs s) (heap s) Hord) as Hh.
  destruct (pop_cancelled _ _ _) as [|top t] eqn:Hpc; [by intros [= <- <-]|].
  destruct (objs s !! top) as [e|]; [|by intros [= <- <-]].
  destruct (Qltb 0 (fire_time e - now)); [by intros [= <- <-]|].
  destruct (Heapq.heappop (event_lt (objs s)) (top :: t)) as [[x h']|] eqn:Hpop;
    [|by intros [= <- <-]].
  intros [= <- <-].
  match goal with |- context [_cleanup_fired_events ?i ?x] =>
    destruct (cleanup_fired_spec i x) as (_ & -> & _) end.
  simpl. destruct Hh as [Hheap Hvalid]. split.
  - eapply (heappop_heap _ (λ r, r < length (objs s))); eauto using event_lt_asym.
    apply event_le_trans.
  - apply heappop_Some in Hpop as [_ Hperm]. rewrite Hperm in Hvalid.
    by apply Forall_cons in Hvalid as [_ ?].
Qed.

Lemma heap_ordered_exec acts :
  heap_ordered (sched (exec acts daemon_init)).
Proof.
  unfold exec.
  assert (heap_ordered (sched daemon_init)) as Hinit.
  { split; [by intros i a b _ ?|constructor]. }
  revert Hinit. generalize daemon_init.
  induction acts as [|a acts IH]; intros d Hd; [done|].
  simpl. apply IH. destruct a; simpl; try done.
  - by apply heap_ordered_add.
  - by apply heap_ordered_cancel.
  - destruct (next_event d); [done|].
    destruct (_run_locked now (sched d)) as [s' out] eqn:Hrun.
    apply heap_ordered_run_locked in Hrun; [|done]. by destruct out.
  - unfold run_fire. by destruct (next_event d).
Qed.

Lemma event_le_fire_time m a b ea :
  b < length m → m !! a = Some ea → event_lt m b a = false →
  ∃ eb, m !! b = Some eb ∧ (fire_time ea <= fire_time eb)%Q.
Proof.
  intros [eb Hb]%lookup_lt_is_Some_2 Ha. unfold event_lt. rewrite Ha, Hb.
  rewrite Qltb_false. eauto.
Qed.

(** X7.  On every state the daemon reaches, the locked part of an iteration
    of [_run] returns the earliest event: every event left in the heap has a
    [fire_time] that is not smaller.  And when it sends the thread to wait,
    no event in the heap is due: every one has its [fire_time] after
    [now]. *)
Theorem scheduler_pops_earliest acts now s' out :
  _run_locked now (sched (exec acts daemon_init)) = (s', out) →
  match out with
  | RunPopped r =>
      ∃ e, objs s' !! r = Some e
           ∧ Forall (λ r', ∃ e', objs s' !! r' = Some e'
                                 ∧ (fire_time e <= fire_time e')%Q) (heap s')
  | RunWait =>
      Forall (λ r', ∃ e', objs s' !! r' = Some e' ∧ (now < fire_time e')%Q)
             (heap s')
  | RunBreak => True
  end.
Proof.
  pose proof (heap_ordered_exec acts) as Hord.
  generalize dependent (sched (exec acts daemon_init)). intros s Hord Hrun.
  destruct (run_locked_spec _ _ _ _ Hrun) as (-> & _ & _).
  revert Hrun. unfold _run_locked. destruct (running s); simpl;
    [|by intros [= <- <-]].
  destruct (pop_cancelled_heap (length (heap s)) (objs s) (heap s) Hord)
    as [Hheap Hvalid].
  destruct (pop_cancelled _ _ _) as [|top t] eqn:Hpc.
  { intros [= <- <-]. constructor. }
  apply Forall_cons in Hvalid as Hvalid'. destruct Hvalid' as [Htop _].
  destruct (lookup_lt_is_Some_2 _ _ Htop) as [e He]. rewrite He.
  destruct (Qltb 0 (fire_time e - now)) eqn:Hwait.
  - intros [= <- <-]. simpl. apply Qltb_true in Hwait.
    apply Forall_forall. intros r' [i Hi]%list_elem_of_lookup_1.
    rewrite Forall_forall in Hvalid.
    destruct (event_le_fire_time (objs s) top r' e) as (e' & He' & Hle);
      [by eapply Hvalid, list_elem_of_lookup_2|done| |].
    + eapply (heap_root_min _ (λ r, r < length (objs s))); eauto using event_lt_asym.
      * apply event_le_trans.
      * by apply Forall_forall.
    + exists e'. split; [done|]. lra.
  - destruct (Heapq.heappop (event_lt (objs s)) (top :: t)) as [[x h']|] eqn:Hpop.
    2:{ by apply heappop_None in Hpop. }
    apply heappop_Some in Hpop as Hpop'. destruct Hpop' as [[= <-] Hperm].
    intros [= <- <-].
    match goal with |- context [_cleanup_fired_events ?i ?x] =>
      destruct (cleanup_fired_spec i x) as (_ & -> & _) end.
    simpl. exists e. split; [done|].
    eapply (heappop_heap _ (λ r, r < length (objs s))) in Hpop as [_ Hmin];
      eauto using event_lt_asym; [|apply event_le_trans].
    rewrite Hperm in Hvalid. apply Forall_cons in Hvalid as [_ Hvalid].
    rewrite Forall_forall in Hmin, Hvalid. apply Forall_forall. intros r' Hr'.
    eapply event_le_fire_time; eauto.
Qed.

(** The theorem on three groups added out of order: the event due first is
    returned, whatever the order of the [add]s. *)
Lemma scheduler_pops_earliest_witness :
  ∃ s',
    _run_locked 100%Q
      (sched (exec [ActAdd "a" "m" [30]%Z 0%Q; ActAdd "b" "m" [10]%Z 0%Q;
                    ActAdd "c" "m" [20]%Z 0%Q] daemon_init))
    = (s', RunPopped 1)
    ∧ ∃ e, objs s' !! 1 = Some e
           ∧ Forall (λ r', ∃ e', objs s' !! r' = Some e'
                                 ∧ (fire_time e <= fire_time e')%Q) (heap s').
Proof.
  eexists. split; [reflexivity|].
  exact (scheduler_pops_earliest
           [ActAdd "a" "m" [30]%Z 0%Q; ActAdd "b" "m" [10]%Z 0%Q;
            ActAdd "c" "m" [20]%Z 0%Q] 100%Q _ (RunPopped 1) eq_refl).
Defined.

(** ** The index and the heap hang together *)

Lemma get_del_ne {V} k k' (d : PyDict.t V) :
  k ≠ k' → PyDict.get k (PyDict.del k' d) = PyDict.get k d.
Proof.
  intros Hne. induction d as [|[k0 v0] d IH]; simpl; [done|].
  destruct (String.eqb_spec k' k0) as [->|Hne']; simpl.
  - destruct (String.eqb_spec k k0); [done|apply IH].
  - by rewrite IH.
Qed.











(** ** After [cancel] no timer of the id is pending *)












(** * Further properties of the wire framing *)

Lemma recv_exact_loop_chunks chunks data n :
  Forall (λ c : list byte, c ≠ []) chunks →
  (length data ≤ n)%nat →
  (n ≤ length data + length (concat chunks))%nat →
  ∃ chunks',
    recv_exact_loop (List.map RxData chunks) data n
    = (Received (data ++ take (n - length data) (concat chunks)),
       List.map RxData chunks')
    ∧ concat chunks' = drop (n - length data) (concat chunks)
    ∧ Forall (λ c : list byte, c ≠ []) chunks'.
Proof.
  intros Hne. revert data. induction Hne as [|c cs Hc Hcs IH]; intros data Hlo Hhi.
  { simpl in *. exists []. destruct (Nat.ltb_spec (length data) n); [lia|].
    rewrite take_nil, drop_nil, app_nil_r. done. }
  simpl in Hhi. rewrite length_app in Hhi.
  simpl. destruct (Nat.ltb_spec (length data) n) as [Hlt|Hge].
  2:{ exists (c :: cs). replace (n - length data) with 0 by lia.
      rewrite take_0, drop_0, app_nil_r. split; [done|]. split; [done|by constructor]. }
  destruct c as [|b c]; [done|].
  destruct (Nat.leb_spec (length (b :: c)) (n - length data)) as [Hall|Hpart].
  - destruct (IH (data ++ b :: c)) as (chunks' & -> & Hrest & Hne');
      [rewrite length_app; lia..|].
    exists chunks'. rewrite length_app in *.
    replace (n - length data) with (length (b :: c) + (n - (length data + length (b :: c))))
      by lia.
    rewrite take_app_add, drop_app_add, <-app_assoc. done.
  - exists (drop (n - length data) (b :: c) :: cs).
    rewrite take_app_le, drop_app_le by lia.
    split; [done|]. split; [done|]. constructor; [|done].
    intros Hnil. apply (f_equal length) in Hnil. rewrite length_drop in Hnil.
    simpl in *. lia.
Qed.

Lemma recv_exact_loop_short chunks data n :
  Forall (λ c : list byte, c ≠ []) chunks →
  (length data + length (concat chunks) < n)%nat →
  fst (recv_exact_loop (List.map RxData chunks) data n) = RecvNone.
Proof.
  intros Hne. revert data. induction Hne as [|c cs Hc Hcs IH]; intros data Hlen.
  { simpl in *. by destruct (Nat.ltb_spec (length data) n); [|lia]. }
  simpl in *. rewrite length_app in Hlen.
  destruct (Nat.ltb_spec (length data) n); [|lia].
  destruct c as [|b c]; [done|].
  destruct (Nat.leb_spec (length (b :: c)) (n - length data)); [|simpl in *; lia].
  apply IH. rewrite length_app. lia.
Qed.

Lemma recv_exact_enough chunks n :
  Forall (λ c : list byte, c ≠ []) chunks →
  (n ≤ length (concat chunks))%nat →
  ∃ chunks',
    _recv_exact (List.map RxData chunks) n
    = (Received (take n (concat chunks)), List.map RxData chunks')
    ∧ concat chunks' = drop n (concat chunks)
    ∧ Forall (λ c : list byte, c ≠ []) chunks'.
Proof.
  intros Hne Hle. unfold _recv_exact.
  destruct (recv_exact_loop_chunks chunks [] n Hne) as (chunks' & Hrecv & ? & ?);
    [simpl; lia..|].
  exists chunks'. simpl in Hrecv. rewrite Nat.sub_0_r in *. done.
Qed.

Lemma recv_exact_starved chunks n :
  Forall (λ c : list byte, c ≠ []) chunks →
  (length (concat chunks) < n)%nat →
  fst (_recv_exact (List.map RxData chunks) n) = RecvNone.
Proof. intros Hne Hlt. unfold _recv_exact. by apply recv_exact_loop_short. Qed.

(** X10.  [_recv_exact] does not depend on how the peer cuts its bytes into
    pieces: if the non-empty pieces that arrive hold at least [n] bytes it
    returns exactly the first [n] bytes of the stream and leaves the rest
    unread; if the stream ends before [n] bytes it returns [None]. *)
Theorem recv_exact_any_chunking chunks n :
  Forall (λ c : list byte, c ≠ []) chunks →
  if Nat.leb n (length (concat chunks)) then
    ∃ chunks',
      _recv_exact (List.map RxData chunks) n
      = (Received (take n (concat chunks)), List.map RxData chunks')
      ∧ concat chunks' = drop n (concat chunks)
      ∧ Forall (λ c : list byte, c ≠ []) chunks'
  else fst (_recv_exact (List.map RxData chunks) n) = RecvNone.
Proof.
  intros Hne. destruct (Nat.leb_spec n (length (concat chunks))) as [Hle|Hlt].
  - by apply recv_exact_enough.
  - by apply recv_exact_starved.
Qed.

(** The theorem on six bytes that arrive as 1 + 3 + 2 while four are asked
    for. *)
Lemma recv_exact_any_chunking_witness :
  _recv_exact [RxData [x00]; RxData [x00; x00; x02]; RxData [x7b; x7d]] 4
  = (Received [x00; x00; x00; x02], [RxData [x7b; x7d]]).
Proof.
  pose proof (recv_exact_any_chunking [[x00]; [x00; x00; x02]; [x7b; x7d]] 4) as H.
  simpl in H. destruct H as (chunks' & H & _); [by repeat constructor|].
  reflexivity.
Defined.

Lemma unpack_u32_total data :
  length data = 4 → ∃ len, unpack_u32 data = Some len.
Proof.
  intros Hlen. destruct data as [|b3 [|b2 [|b1 [|b0 [|]]]]]; try done.
  eexists. reflexivity.
Qed.

(** [_recv_message] on a stream cut into pieces in any way. *)
Lemma recv_message_chunks loads chunks :
  Forall (λ c : list byte, c ≠ []) chunks →
  ∃ pending,
    _recv_message loads (List.map RxData chunks)
    = (match unpack_u32 (take 4 (concat chunks)) with
       | Some len =>
           if (1024 * 1024 <? len)%N then NoMessage
           else if Nat.leb (N.to_nat len) (length (drop 4 (concat chunks))) then
             match loads (take (N.to_nat len) (drop 4 (concat chunks))) with
             | Loaded v => Message v
             | JSONDecodeError => NoMessage
             | UnicodeDecodeError => MessageRaises
             end
           else NoMessage
       | None => NoMessage
       end, pending).
Proof.
  intros Hne. unfold _recv_message.
  destruct (Nat.leb_spec 4 (length (concat chunks))) as [Hle|Hlt].
  - destruct (recv_exact_enough chunks 4 Hne Hle) as (chunks1 & -> & Hrest & Hne1).
    destruct (unpack_u32 (take 4 (concat chunks))) as [len|]; [|by eexists].
    destruct (1024 * 1024 <? len)%N; [by eexists|].
    rewrite <-Hrest.
    destruct (Nat.leb_spec (N.to_nat len) (length (concat chunks1))) as [Hle'|Hlt'].
    + destruct (recv_exact_enough chunks1 _ Hne1 Hle') as (chunks2 & -> & _).
      destruct (loads _); by eexists.
    + pose proof (recv_exact_starved chunks1 _ Hne1 Hlt') as Hbody.
      destruct (_recv_exact (List.map RxData chunks1) (N.to_nat len)) as [[] ?];
        simpl in Hbody; try done; by eexists.
  - pose proof (recv_exact_starved chunks 4 Hne Hlt) as H4.
    assert (unpack_u32 (take 4 (concat chunks)) = None) as ->.
    { assert (length (take 4 (concat chunks)) < 4) as Htake
        by (rewrite length_take; lia).
      destruct (take 4 (concat chunks)) as [|b3 [|b2 [|b1 [|b0 [|]]]]];
        try done; simpl in Htake; lia. }
    destruct (_recv_exact (List.map RxData chunks) 4) as [[] ?]; simpl in H4;
      try done; by eexists.
Qed.

(** X11.  Framing errors are silent.  Whatever way the bytes are cut into
    pieces: when fewer than four bytes arrive, when the prefix announces more
    than 1 MiB (the body is then not read), when fewer bytes than announced
    arrive, or when the body does not decode to JSON, [_handle_client] writes
    nothing, leaves the service as it is and closes the connection. *)
Theorem framing_errors_are_silent loads dumps env svc chunks sent broken :
  Forall (λ c : list byte, c ≠ []) chunks →
  match unpack_u32 (take 4 (concat chunks)) with
  | Some len =>
      (1024 * 1024 < len)%N
      ∨ (length (drop 4 (concat chunks)) < N.to_nat len)%nat
      ∨ ∀ v, loads (take (N.to_nat len) (drop 4 (concat chunks))) ≠ Loaded v
  | None => True
  end →
  ∃ pending,
    _handle_client loads dumps env svc
      {| rx := List.map RxData chunks; tx := sent; tx_broken := broken;
         closed := false |}
    = Some (svc, {| rx := pending; tx := sent; tx_broken := broken;
                    closed := true |}).
Proof.
  intros Hne Herr. unfold _handle_client. simpl.
  destruct (recv_message_chunks loads chunks Hne) as (pending & ->).
  exists pending.
  destruct (unpack_u32 (take 4 (concat chunks))) as [len|]; [|done].
  destruct (N.ltb_spec (1024 * 1024) len) as [|Hsize]; [done|].
  destruct (Nat.leb_spec (N.to_nat len) (length (drop 4 (concat chunks))))
    as [Hbody|]; [|done].
  destruct Herr as [?|[?|Hloads]]; [lia..|].
  destruct (loads _) as [v| |] eqn:Hv; [|done..]. by destruct (Hloads v).
Qed.

(** The theorem at scenario S6 of the specification: a prefix that announces
    2 000 000 bytes. *)
Lemma framing_errors_are_silent_witness :
  _handle_client (λ _, Loaded (JDict [("command", JStr "shutdown")])) (λ _, [])
    (mkEnv (λ _, 0%Q) (λ _, "0.0")) (mkService scheduler_init [] true)
    {| rx := [RxData [x00; x1e]; RxData [x84; x80; x7b; x7d]]; tx := [];
       tx_broken := false; closed := false |}
  = Some (mkService scheduler_init [] true,
          {| rx := [RxData [x7b; x7d]]; tx := []; tx_broken := false;
             closed := true |}).
Proof.
  destruct (framing_errors_are_silent
              (λ _, Loaded (JDict [("command", JStr "shutdown")])) (λ _, [])
              (mkEnv (λ _, 0%Q) (λ _, "0.0")) (mkService scheduler_init [] true)
              [[x00; x1e]; [x84; x80; x7b; x7d]] [] false) as (pending & H).
  - by repeat constructor.
  - left. reflexivity.
  - reflexivity.
Defined.

(** X12.  One request, one response, whatever way the request is cut into
    pieces: a frame whose body of at most 1 MiB decodes to a non-empty object
    that [_handle_command] answers is answered with exactly one frame, the
    length prefix of which is the byte length of the encoded reply; the
    service takes the state the command left, and the connection is closed.
    Bytes that follow the frame are left unread. *)
Theorem one_request_one_response loads dumps env svc chunks prefix data extra
    cmd resp svc' :
  Forall (λ c : list byte, c ≠ []) chunks →
  concat chunks = prefix ++ data ++ extra →
  pack_u32 (N.of_nat (length data)) = Some prefix →
  (N.of_nat (length data) <= 1024 * 1024)%N →
  loads data = Loaded (JDict cmd) →
  cmd ≠ [] →
  _handle_command env cmd svc = Reply resp svc' →
  (N.of_nat (length (dumps resp)) < 2 ^ 32)%N →
  ∃ pending reply_prefix,
    _handle_client loads dumps env svc
      {| rx := List.map RxData chunks; tx := []; tx_broken := false;
         closed := false |}
    = Some (svc', {| rx := pending; tx := reply_prefix ++ dumps resp;
                     tx_broken := false; closed := true |})
    ∧ unpack_u32 reply_prefix = Some (N.of_nat (length (dumps resp))).
Proof.
  intros Hne Hstream Hpack Hsize Hloads Hcmd Hreply Hout.
  apply unpack_pack_u32 in Hpack as [Hunpack Hlen].
  destruct (pack_u32 (N.of_nat (length (dumps resp)))) as [reply_prefix|] eqn:Hrp.
  2:{ unfold pack_u32 in Hrp. apply N.ltb_lt in Hout. by rewrite Hout in Hrp. }
  destruct (recv_message_chunks loads chunks Hne) as (pending & Hrecv).
  exists pending, reply_prefix. split; [|by apply unpack_pack_u32 in Hrp as [? _]].
  unfold _handle_client. cbn [rx]. rewrite Hrecv, Hstream.
  rewrite take_app_length' by done. rewrite Hunpack.
  destruct (N.ltb_spec (1024 * 1024) (N.of_nat (length data))) as [|_]; [lia|].
  rewrite drop_app_length' by done. rewrite Nat2N.id.
  rewrite take_app_length, length_app.
  destruct (Nat.leb_spec (length data) (length data + length extra)); [|lia].
  rewrite Hloads. destruct cmd as [|kv cmd]; [done|]. cbn [truthy]. rewrite Hreply.
  unfold _send_message. cbn [tx_broken tx]. by rewrite Hrp.
Qed.

(** The theorem on a [shutdown] request that arrives byte by byte. *)
Lemma one_request_one_response_witness :
  ∃ pending reply_prefix,
    _handle_client
      (λ _, Loaded (JDict [("command", JStr "shutdown")])) (λ _, [x7b; x7d])
      (mkEnv (λ _, 0%Q) (λ _, "0.0")) (mkService scheduler_init [] true)
      {| rx := List.map RxData [[x00]; [x00]; [x00]; [x01]; [x3f]];
         tx := []; tx_broken := false; closed := false |}
    = Some (mkService scheduler_init [] false,
            {| rx := pending;
               tx := reply_prefix
                     ++ (λ _ : json, [x7b; x7d])
                          (JDict [("status", JStr "ok");
                                  ("message", JStr "shutting down")]);
               tx_broken := false; closed := true |})
    ∧ unpack_u32 reply_prefix = Some 2%N.
Proof.
  apply (one_request_one_response
           (λ _, Loaded (JDict [("command", JStr "shutdown")])) (λ _, [x7b; x7d])
           (mkEnv (λ _, 0%Q) (λ _, "0.0")) (mkService scheduler_init [] true)
           [[x00]; [x00]; [x00]; [x01]; [x3f]] [x00; x00; x00; x01] [x3f] []
           [("command", JStr "shutdown")]
           (JDict [("status", JStr "ok"); ("message", JStr "shutting down")])
           (mkService scheduler_init [] false)).
  - by repeat constructor.
  - reflexivity.
  - reflexivity.
  - simpl. lia.
  - reflexivity.
  - done.
  - reflexivity.
  - simpl. lia.
Defined.

(** ** Client and service speak the same framing *)

(** X13.  An RPC end to end.  When [json.loads] undoes [json.dumps] on the
    command and on the reply and both encode in at most 1 MiB,
    [send_command] against the service returns the very reply that
    [_handle_command] produced.  When the reply encodes in more than 1 MiB
    (and fewer than 4 GiB) the service still sends it, and the client, which
    applies the same limit to what it reads, returns [None]. *)
Theorem rpc_round_trip loads dumps env svc cmd resp svc' :
  loads (dumps (JDict cmd)) = Loaded (JDict cmd) →
  loads (dumps resp) = Loaded resp →
  cmd ≠ [] →
  (N.of_nat (length (dumps (JDict cmd))) <= 1024 * 1024)%N →
  (N.of_nat (length (dumps resp)) < 2 ^ 32)%N →
  _handle_command env cmd svc = Reply resp svc' →
  send_command loads dumps true (service_peer loads dumps env svc) (JDict cmd)
  = if (N.of_nat (length (dumps resp)) <=? 1024 * 1024)%N then Message resp
    else NoMessage.
Proof.
  intros Hcmd Hresp Hne Hsize Hout Hreply. unfold send_command.
  destruct (pack_u32 (N.of_nat (length (dumps (JDict cmd))))) as [prefix|] eqn:Hp.
  2:{ unfold pack_u32 in Hp.
      destruct (N.ltb_spec (N.of_nat (length (dumps (JDict cmd)))) (2 ^ 32)); [done|].
      change (2 ^ 32)%N with 4294967296%N in *. lia. }
  simpl. unfold service_peer.
  destruct (handle_client_one_response loads dumps env svc (dumps (JDict cmd)) cmd
              prefix resp svc' Hsize Hp Hcmd Hne Hreply Hout)
    as (reply_prefix & -> & Hunpack).
  cbn [tx].
  assert (length reply_prefix = 4) as Hlen.
  { destruct reply_prefix as [|b3 [|b2 [|b1 [|b0 [|]]]]]; done. }
  destruct (recv_exact_prefix reply_prefix (dumps resp) Hlen)
    as (pending & -> & Hbody).
  rewrite Hunpack, Nat2N.id, Hbody, Hresp.
  destruct (N.ltb_spec (1024 * 1024) (N.of_nat (length (dumps resp))));
    destruct (N.leb_spec (N.of_nat (length (dumps resp))) (1024 * 1024));
    try done; lia.
Qed.

(** The theorem on a [cancel] for an unknown id, with a codec of two
    messages. *)
Lemma rpc_round_trip_witness :
  send_command
    (λ data, match data with
             | [x01] => Loaded (JDict (cancel_escalation_command "S1"))
             | _ => Loaded (JDict [("status", JStr "ok"); ("cancelled", JBool false)])
             end)
    (λ v, match v with
          | JDict (("command", _) :: _) => [x01]
          | _ => [x02]
          end)
    true
    (service_peer
       (λ data, match data with
                | [x01] => Loaded (JDict (cancel_escalation_command "S1"))
                | _ => Loaded (JDict [("status", JStr "ok"); ("cancelled", JBool false)])
                end)
       (λ v, match v with
             | JDict (("command", _) :: _) => [x01]
             | _ => [x02]
             end)
       (mkEnv (λ _, 0%Q) (λ _, "0.0")) (mkService scheduler_init [] true))
    (JDict (cancel_escalation_command "S1"))
  = Message (JDict [("status", JStr "ok"); ("cancelled", JBool false)]).
Proof.
  apply (rpc_round_trip
           (λ data, match data with
                    | [x01] => Loaded (JDict (cancel_escalation_command "S1"))
                    | _ => Loaded (JDict [("status", JStr "ok");
                                          ("cancelled", JBool false)])
                    end)
           (λ v, match v with
                 | JDict (("command", _) :: _) => [x01]
                 | _ => [x02]
                 end)
           (mkEnv (λ _, 0%Q) (λ _, "0.0")) (mkService scheduler_init [] true)
           (cancel_escalation_command "S1")
           (JDict [("status", JStr "ok"); ("cancelled", JBool false)])
           (mkService scheduler_init [] true)).
  - reflexivity.
  - reflexivity.
  - done.
  - simpl. lia.
  - simpl. lia.
  - reflexivity.
Defined.

(** * The session registry *)

Lemma get_set_eq {V} k (v : V) (d : PyDict.t V) :
  PyDict.get k (PyDict.set k v d) = Some v.
Proof.
  induction d as [|[k0 v0] d IH]; simpl.
  - by rewrite String.eqb_refl.
  - destruct (String.eqb_spec k k0) as [->|Hne]; simpl.
    + by rewrite String.eqb_refl.
    + by destruct (String.eqb_spec k k0).
Qed.

Lemma get_set_ne {V} k k' (v : V) (d : PyDict.t V) :
  k ≠ k' → PyDict.get k' (PyDict.set k v d) = PyDict.get k' d.
Proof.
  intros Hne. induction d as [|[k0 v0] d IH]; simpl.
  - by destruct (String.eqb_spec k' k).
  - destruct (String.eqb_spec k k0) as [->|Hne0]; simpl.
    + by destruct (String.eqb_spec k' k0).
    + by rewrite IH.
Qed.

Lemma set_keys {V} k (v : V) (d : PyDict.t V) :
  PyDict.keys (PyDict.set k v d)
  = if PyDict.mem k d then PyDict.keys d else PyDict.keys d ++ [k].
Proof.
  unfold PyDict.keys, PyDict.mem. induction d as [|[k0 v0] d IH]; simpl; [done|].
  destruct (String.eqb_spec k k0) as [->|Hne]; simpl; [done|].
  rewrite IH. by destruct (PyDict.get k d).
Qed.

Lemma mem_keys {V} k (d : PyDict.t V) :
  PyDict.mem k d = true ↔ k ∈ PyDict.keys d.
Proof.
  unfold PyDict.keys, PyDict.mem. induction d as [|[k0 v0] d IH]; simpl.
  - split; [done|]. by intros ?%elem_of_nil.
  - rewrite elem_of_cons. destruct (String.eqb_spec k k0) as [->|Hne].
    + split; auto.
    + rewrite IH. split; [auto|]. by intros [?|?].
Qed.

Lemma set_keys_NoDup {V} k (v : V) (d : PyDict.t V) :
  NoDup (PyDict.keys d) → NoDup (PyDict.keys (PyDict.set k v d)).
Proof.
  intros Hnd. rewrite set_keys. destruct (PyDict.mem k d) eqn:Hmem; [done|].
  apply NoDup_app. split; [done|]. split; [|apply NoDup_singleton].
  intros x Hx ->%list_elem_of_singleton. apply mem_keys in Hx. congruence.
Qed.

Lemma del_unique_length {V} k (d : PyDict.t V) :
  NoDup (PyDict.keys d) → PyDict.mem k d = true →
  S (length (PyDict.del k d)) = length d.
Proof.
  unfold PyDict.keys. induction d as [|[k0 v0] d IH]; simpl; [done|].
  intros [Hnotin Hnd]%NoDup_cons. unfold PyDict.mem. simpl.
  destruct (String.eqb_spec k k0) as [->|Hne]; simpl.
  - intros _. f_equal. f_equal. apply del_absent.
    destruct (PyDict.get k0 d) as [v|] eqn:Hget; [|done].
    apply get_elem_of in Hget. destruct Hnotin.
    apply list_elem_of_fmap. by exists (k0, v).
  - intros Hmem. f_equal. by apply IH.
Qed.

(** X14.  [register_session] is an insert-or-replace.  Whatever else the
    request carries, the session is afterwards registered with the [pid] of
    the request (unvalidated, [None] when missing) and the time of
    registration; every other session is untouched, ids stay unique, and the
    reported count is the size of the registry: one more for a new id, the
    same for an id registered before.  The scheduler and the running flag are
    not touched. *)
Theorem register_session_upsert env svc cmd sid :
  PyDict.get "command" cmd = Some (JStr "register_session") →
  PyDict.get "session_id" cmd = Some (JStr sid) →
  NoDup (PyDict.keys (sessions svc)) →
  ∃ svc',
    _handle_command env cmd svc
    = Reply (JDict [("status", JStr "ok"); ("session_id", JStr sid);
                    ("session_count", JInt (Z.of_nat (length (sessions svc'))))])
            svc'
    ∧ PyDict.get sid (sessions svc')
      = Some {| pid := jget "pid" cmd; registered_at := clock env 1 |}
    ∧ (∀ other, other ≠ sid →
         PyDict.get other (sessions svc') = PyDict.get other (sessions svc))
    ∧ length (sessions svc')
      = (if PyDict.mem sid (sessions svc) then length (sessions svc)
         else S (length (sessions svc)))
    ∧ NoDup (PyDict.keys (sessions svc'))
    ∧ scheduler svc' = scheduler svc
    ∧ svc_running svc' = svc_running svc.
Proof.
  intros Hcmd Hsid Hnd.
  set (info := {| pid := jget "pid" cmd; registered_at := clock env 1 |}).
  exists {| scheduler := scheduler svc;
            sessions := PyDict.set sid info (sessions svc);
            svc_running := svc_running svc |}.
  cbn [sessions scheduler svc_running]. repeat apply conj; try done.
  - unfold _handle_command, jget_default. by rewrite Hcmd, Hsid.
  - apply get_set_eq.
  - intros other Hne. by apply get_set_ne.
  - pose proof (f_equal length (set_keys sid info (sessions svc))) as Hlen.
    unfold PyDict.keys in Hlen. rewrite length_fmap in Hlen. rewrite Hlen.
    destruct (PyDict.mem sid (sessions svc));
      rewrite ?length_app, length_fmap; simpl; lia.
  - by apply set_keys_NoDup.
Qed.

(** The theorem on a second registration of session ["a"], with another
    pid. *)
Lemma register_session_upsert_witness :
  ∃ svc',
    _handle_command (mkEnv (λ _, 20%Q) (λ _, "20.0"))
      [("command", JStr "register_session"); ("session_id", JStr "a");
       ("pid", JInt 77)]
      (mkService scheduler_init [("a", mkSession (JInt 4242) 10%Q)] true)
    = Reply (JDict [("status", JStr "ok"); ("session_id", JStr "a");
                    ("session_count", JInt (Z.of_nat (length (sessions svc'))))])
            svc'
    ∧ PyDict.get "a" (sessions svc')
      = Some {| pid := JInt 77; registered_at := 20%Q |}
    ∧ (∀ other, other ≠ "a" →
         PyDict.get other (sessions svc')
         = PyDict.get other [("a", mkSession (JInt 4242) 10%Q)])
    ∧ length (sessions svc') = 1
    ∧ NoDup (PyDict.keys (sessions svc'))
    ∧ scheduler svc' = scheduler_init
    ∧ svc_running svc' = true.
Proof.
  apply (register_session_upsert (mkEnv (λ _, 20%Q) (λ _, "20.0"))
           (mkService scheduler_init [("a", mkSession (JInt 4242) 10%Q)] true)
           [("command", JStr "register_session"); ("session_id", JStr "a");
            ("pid", JInt 77)] "a").
  - reflexivity.
  - reflexivity.
  - apply NoDup_singleton.
Defined.

(** X15.  Registering a new session and unregistering it by its id gives
    the registry back as it was.  The reply to the unregistration counts the
    sessions that were there before the pair, and when there were none it
    announces the shutdown and the service stops: a service that registered
    its first session and lost it does not stay up. *)
Theorem register_then_unregister env env' svc sid p :
  sid ≠ "" →
  PyDict.mem sid (sessions svc) = false →
  ∃ reply svc1,
    _handle_command env
      [("command", JStr "register_session"); ("session_id", JStr sid); ("pid", p)]
      svc
    = Reply reply svc1
    ∧ _handle_command env'
        [("command", JStr "unregister_session"); ("session_id", JStr sid)] svc1
      = Reply (JDict [("status", JStr "ok"); ("session_id", JStr sid);
                      ("session_count", JInt (Z.of_nat (length (sessions svc))));
                      ("shutting_down",
                       JBool (Nat.eqb (length (sessions svc)) 0))])
              {| scheduler := scheduler svc;
                 sessions := sessions svc;
                 svc_running := match sessions svc with
                                | [] => false
                                | _ :: _ => svc_running svc
                                end |}.
Proof.
  intros Hsid Hmem.
  assert (PyDict.get sid (sessions svc) = None) as Hget.
  { unfold PyDict.mem in Hmem. by destruct (PyDict.get sid (sessions svc)). }
  eexists _, _. split.
  - unfold _handle_command. cbn -[PyDict.set]. reflexivity.
  - unfold _handle_command. cbn -[PyDict.set PyDict.del PyDict.mem truthy].
    unfold unregister.
    assert (truthy (JStr sid) = true) as ->.
    { simpl. by destruct (String.eqb_spec sid ""). }
    rewrite set_absent by done. unfold PyDict.mem at 1.
    rewrite get_snoc by done. cbn [andb].
    rewrite del_snoc, del_absent by done.
    by destruct (sessions svc).
Qed.

(** The theorem on the first session of a fresh service. *)
Lemma register_then_unregister_witness :
  ∃ reply svc1,
    _handle_command (mkEnv (λ _, 20%Q) (λ _, "20.0"))
      [("command", JStr "register_session"); ("session_id", JStr "a");
       ("pid", JInt 4242)]
      (mkService scheduler_init [] true)
    = Reply reply svc1
    ∧ _handle_command (mkEnv (λ _, 30%Q) (λ _, "30.0"))
        [("command", JStr "unregister_session"); ("session_id", JStr "a")] svc1
      = Reply (JDict [("status", JStr "ok"); ("session_id", JStr "a");
                      ("session_count", JInt 0); ("shutting_down", JBool true)])
              (mkService scheduler_init [] false).
Proof.
  apply (register_then_unregister (mkEnv (λ _, 20%Q) (λ _, "20.0"))
           (mkEnv (λ _, 30%Q) (λ _, "30.0")) (mkService scheduler_init [] true)
           "a" (JInt 4242)).
  - done.
  - reflexivity.
Defined.

(** X16.  The session that the fallback of [unregister_session] picks is the
    oldest one: no session was registered before it, and every session that
    stands before it in the registry was registered strictly later, so among
    sessions of the same age the one registered first is taken. *)
Theorem oldest_session_first_minimum first rest :
  ∃ i,
    (first :: rest) !! i = Some (oldest_session first rest)
    ∧ (∀ kv, kv ∈ first :: rest →
         (registered_at (snd (oldest_session first rest))
          <= registered_at (snd kv))%Q)
    ∧ (∀ j kv, (j < i)%nat → (first :: rest) !! j = Some kv →
         (registered_at (snd (oldest_session first rest))
          < registered_at (snd kv))%Q).
Proof.
  unfold oldest_session.
  set (f := λ (best kv : string * session),
              if Qltb (registered_at (snd kv)) (registered_at (snd best))
              then kv else best).
  assert (∀ (seen : list (string * session)) best l i,
            seen !! i = Some best →
            (∀ kv, kv ∈ seen →
               (registered_at (snd best) <= registered_at (snd kv))%Q) →
            (∀ j kv, (j < i)%nat → seen !! j = Some kv →
               (registered_at (snd best) < registered_at (snd kv))%Q) →
            ∃ i', (seen ++ l) !! i' = Some (fold_left f l best)
              ∧ (∀ kv, kv ∈ seen ++ l →
                   (registered_at (snd (fold_left f l best))
                    <= registered_at (snd kv))%Q)
              ∧ (∀ j kv, (j < i')%nat → (seen ++ l) !! j = Some kv →
                   (registered_at (snd (fold_left f l best))
                    < registered_at (snd kv))%Q)) as Hfold.
  { intros seen best l. revert seen best.
    induction l as [|kv l IH]; intros seen best i Hi Hmin Hfirst.
    - exists i. rewrite app_nil_r. by simpl.
    - simpl. replace (seen ++ kv :: l) with ((seen ++ [kv]) ++ l)
        by by rewrite <-app_assoc.
      change (f best kv) with (if Qltb (registered_at (snd kv)) (registered_at (snd best)) then kv else best).
      destruct (Qltb (registered_at (snd kv)) (registered_at (snd best))) eqn:Hlt.
      + apply Qltb_true in Hlt.
        apply (IH (seen ++ [kv]) kv (length seen)).
        * by rewrite list_lookup_middle.
        * intros kv' [Hin| ->%list_elem_of_singleton]%elem_of_app.
          -- apply Hmin in Hin. lra.
          -- lra.
        * intros j kv' Hj Hlook. rewrite lookup_app_l in Hlook by done.
          apply list_elem_of_lookup_2, Hmin in Hlook. lra.
      + apply Qltb_false in Hlt.
        apply (IH (seen ++ [kv]) best i).
        * by apply lookup_app_l_Some.
        * intros kv' [Hin| ->%list_elem_of_singleton]%elem_of_app; auto.
        * intros j kv' Hj Hlook.
          apply lookup_lt_Some in Hi.
          rewrite lookup_app_l in Hlook by lia. eauto. }
  destruct (Hfold [first] first rest 0%nat) as (i & Hi & Hmin & Hfirst).
  - done.
  - intros kv ->%list_elem_of_singleton. lra.
  - intros j kv Hj. lia.
  - exists i. done.
Qed.

(** X17.  Every [unregister_session] whose [session_id] is a string or
    missing is answered, and takes exactly one session out of a registry that
    has one; the reply names the session that was removed.  The count in the
    reply is the size of the registry afterwards, and the service keeps
    running exactly when it ran before and a session is left; on an empty
    registry the command removes nothing, still answers [ok] and stops the
    service. *)
Theorem unregister_session_takes_one env svc cmd :
  PyDict.get "command" cmd = Some (JStr "unregister_session") →
  (jget "session_id" cmd = JNull ∨ ∃ sid, jget "session_id" cmd = JStr sid) →
  NoDup (PyDict.keys (sessions svc)) →
  ∃ reported svc',
    _handle_command env cmd svc
    = Reply (JDict [("status", JStr "ok"); ("session_id", reported);
                    ("session_count", JInt (Z.of_nat (length (sessions svc'))));
                    ("shutting_down",
                     JBool (Nat.eqb (length (sessions svc')) 0))])
            svc'
    ∧ length (sessions svc') = (length (sessions svc) - 1)%nat
    ∧ (sessions svc ≠ [] →
       ∃ removed, reported = JStr removed
         ∧ PyDict.mem removed (sessions svc) = true
         ∧ sessions svc' = PyDict.del removed (sessions svc))
    ∧ (svc_running svc' = true ↔ svc_running svc = true ∧ sessions svc' ≠ [])
    ∧ scheduler svc' = scheduler svc.
Proof.
  intros Hcmd Hsid Hnd.
  assert (∃ reported ss,
            unregister (jget "session_id" cmd) (sessions svc) = Some (ss, reported)
            ∧ length ss = (length (sessions svc) - 1)%nat
            ∧ (sessions svc ≠ [] →
               ∃ removed, reported = JStr removed
                 ∧ PyDict.mem removed (sessions svc) = true
                 ∧ ss = PyDict.del removed (sessions svc))) as Hun.
  { assert (∃ reported ss,
              (match sessions svc with
               | first :: rest =>
                   (PyDict.del (fst (oldest_session first rest)) (sessions svc),
                    JStr (fst (oldest_session first rest)))
               | [] => (sessions svc, jget "session_id" cmd)
               end) = (ss, reported)
              ∧ length ss = (length (sessions svc) - 1)%nat
              ∧ (sessions svc ≠ [] →
                 ∃ removed, reported = JStr removed
                   ∧ PyDict.mem removed (sessions svc) = true
                   ∧ ss = PyDict.del removed (sessions svc))) as Hfallback.
    { destruct (sessions svc) as [|first rest] eqn:Hss.
      - eexists _, _. split; [done|]. split; [done|]. by intros [].
      - pose proof (mem_elem_of _ _ (oldest_session_elem first rest)) as Hmem.
        eexists _, _. split; [done|]. split.
        + pose proof (del_unique_length _ _ Hnd Hmem) as Hlen.
          simpl in Hlen |- *. lia.
        + intros _. by eexists. }
    unfold unregister.
    destruct Hsid as [Hs|[sid Hs]]; rewrite Hs in *.
    - destruct Hfallback as (reported & ss & Hfb & ?).
      exists reported, ss. split; [|done].
      destruct (sessions svc); simpl in *; congruence.
    - destruct (truthy (JStr sid) && PyDict.mem sid (sessions svc)) eqn:Hknown.
      + apply andb_true_iff in Hknown as [_ Hmem].
        eexists _, _. split; [done|]. split.
        * pose proof (del_unique_length _ _ Hnd Hmem) as Hlen. lia.
        * intros _. by eexists.
      + destruct Hfallback as (reported & ss & Hfb & ?).
        exists reported, ss. split; [|done].
        destruct (sessions svc); simpl in *; congruence. }
  destruct Hun as (reported & ss & Hun & Hlen & Hrem).
  exists reported,
    {| scheduler := scheduler svc; sessions := ss;
       svc_running := if Nat.eqb (length ss) 0 then false else svc_running svc |}.
  cbn [sessions scheduler svc_running]. repeat apply conj; try done.
  - unfold _handle_command, jget_default. rewrite Hcmd.
    cbn -[unregister]. by rewrite Hun.
  - destruct ss; simpl; [by intros [=]|]. by intros ->.
  - intros [-> Hne]. by destruct ss.
Qed.

(** The theorem on an empty registry: nothing to remove, and the service
    stops. *)
Lemma unregister_session_takes_one_witness :
  ∃ reported svc',
    _handle_command (mkEnv (λ _, 20%Q) (λ _, "20.0"))
      [("command", JStr "unregister_session")]
      (mkService scheduler_init [] true)
    = Reply (JDict [("status", JStr "ok"); ("session_id", reported);
                    ("session_count", JInt (Z.of_nat (length (sessions svc'))));
                    ("shutting_down",
                     JBool (Nat.eqb (length (sessions svc')) 0))])
            svc'
    ∧ length (sessions svc') = 0%nat
    ∧ (@nil (string * session) ≠ [] →
       ∃ removed, reported = JStr removed
         ∧ PyDict.mem removed (@nil (string * session)) = true
         ∧ sessions svc' = PyDict.del removed [])
    ∧ (svc_running svc' = true ↔ true = true ∧ sessions svc' ≠ [])
    ∧ scheduler svc' = scheduler_init.
Proof.
  apply (unregister_session_takes_one (mkEnv (λ _, 20%Q) (λ _, "20.0"))
           (mkService scheduler_init [] true)
           [("command", JStr "unregister_session")]).
  - reflexivity.
  - by left.
  - apply NoDup_nil_2.
Defined.

(** * The sweep of dead sessions *)

Lemma fold_del_filter {V} (l : list string) (d : PyDict.t V) :
  fold_left (λ ss k, PyDict.del k ss) l d
  = List.filter (λ kv, negb (existsb (String.eqb (fst kv)) l)) d.
Proof.
  revert d. induction l as [|k l IH]; intros d; simpl.
  - induction d as [|kv d IHd]; simpl; [done|]. by rewrite <-IHd.
  - rewrite IH. unfold PyDict.del.
    induction d as [|kv d IHd]; simpl; [done|].
    rewrite (String.eqb_sym (fst kv) k).
    destruct (String.eqb k (fst kv)); simpl; [done|].
    destruct (existsb _ l); simpl; by rewrite IHd.
Qed.

Lemma dead_sessions_spec os_kill (ss : PyDict.t session) :
  Forall (λ kv : string * session,
            truthy (pid (snd kv)) = true → is_Some (kill_pid (pid (snd kv)))) ss →
  dead_sessions os_kill ss
  = Some (List.map fst
            (List.filter
               (λ kv : string * session,
                  truthy (pid (snd kv))
                  && match kill_pid (pid (snd kv)) with
                     | Some z => negb (_is_pid_alive os_kill z)
                     | None => false
                     end) ss)).
Proof.
  induction 1 as [|[sid info] ss Hpid _ IH]; simpl in *; [done|].
  destruct (truthy (pid info)); simpl; [|done].
  destruct Hpid as [z ->]; [done|]. rewrite IH.
  by destruct (_is_pid_alive os_kill z).
Qed.

Lemma dead_sessions_valid os_kill (ss : PyDict.t session) dead :
  dead_sessions os_kill ss = Some dead →
  Forall (λ kv : string * session,
            truthy (pid (snd kv)) = true → is_Some (kill_pid (pid (snd kv)))) ss.
Proof.
  revert dead. induction ss as [|[sid info] ss IH]; intros dead; simpl;
    [intros _; constructor|].
  destruct (truthy (pid info)) eqn:Hpid.
  - destruct (kill_pid (pid info)) as [z|] eqn:Hz; [|done].
    destruct (dead_sessions os_kill ss) as [dead'|]; [|done].
    intros _. constructor; [by eauto|]. by eapply IH.
  - intros Hdead. constructor; [simpl; congruence|]. by eapply IH.
Qed.

Lemma sweep_survivors os_kill svc svc' :
  NoDup (PyDict.keys (sessions svc)) →
  _cleanup_dead_sessions os_kill svc = Some svc' →
  sessions svc'
  = List.filter
      (λ kv : string * session,
         negb (truthy (pid (snd kv)))
         || match kill_pid (pid (snd kv)) with
            | Some z => _is_pid_alive os_kill z
            | None => true
            end)
      (sessions svc).
Proof.
  intros Hnd. unfold _cleanup_dead_sessions.
  destruct (dead_sessions os_kill (sessions svc)) as [dead|] eqn:Hdead; [|done].
  intros [= <-]. cbn [sessions].
  pose proof (dead_sessions_valid _ _ _ Hdead) as Hvalid.
  rewrite (dead_sessions_spec _ _ Hvalid) in Hdead. injection Hdead as <-.
  set (is_dead := λ kv : string * session,
         truthy (pid (snd kv))
         && match kill_pid (pid (snd kv)) with
            | Some z => negb (_is_pid_alive os_kill z)
            | None => false
            end).
  rewrite fold_del_filter. apply List.filter_ext_in. intros [sid info] Hin.
  transitivity (negb (is_dead (sid, info))).
  - f_equal. apply eq_true_iff_eq. rewrite existsb_exists. split.
    + intros (k & Hk & Heq). apply String.eqb_eq in Heq. simpl in Heq. subst k.
      apply in_map_iff in Hk as ([sid' info'] & Hfst & Hk). simpl in Hfst. subst sid'.
      apply filter_In in Hk as [Hk Hdead].
      assert (info' = info) as ->; [|done].
      assert (∃ v, PyDict.get sid (sessions svc) = Some v) as [v Hget].
      { apply list_elem_of_In, mem_elem_of in Hin. unfold PyDict.mem in Hin.
        simpl in Hin. destruct (PyDict.get sid (sessions svc)); [by eexists|done]. }
      apply list_elem_of_In in Hin, Hk.
      rewrite (get_unique _ _ _ _ Hnd Hget Hin).
      by rewrite (get_unique _ _ _ _ Hnd Hget Hk).
    + intros Hdead. exists sid. split; [|apply String.eqb_refl].
      apply in_map_iff. exists (sid, info). split; [done|].
      by apply filter_In.
  - unfold is_dead. simpl.
    destruct (truthy (pid info)); simpl; [|done].
    destruct (kill_pid (pid info)); [|done]. by rewrite negb_involutive.
Qed.

(** X18.  What a sweep leaves.  On a registry whose truthy pids are
    integers a process id can hold, [_cleanup_dead_sessions] removes exactly
    the sessions whose pid is truthy and whose probe fails: sessions without
    a pid (missing, [None] or 0) are never swept, the others keep their order.
    It stops the service exactly when it emptied the registry; a registry that
    was empty already is not a reason to stop. *)
Theorem sweep_keeps_the_living os_kill svc :
  NoDup (PyDict.keys (sessions svc)) →
  Forall (λ kv : string * session,
            truthy (pid (snd kv)) = true → is_Some (kill_pid (pid (snd kv))))
         (sessions svc) →
  ∃ svc',
    _cleanup_dead_sessions os_kill svc = Some svc'
    ∧ sessions svc'
      = List.filter
          (λ kv : string * session,
             negb (truthy (pid (snd kv)))
             || match kill_pid (pid (snd kv)) with
                | Some z => _is_pid_alive os_kill z
                | None => true
                end)
          (sessions svc)
    ∧ (svc_running svc' = true ↔
       svc_running svc = true ∧ (sessions svc = [] ∨ sessions svc' ≠ []))
    ∧ scheduler svc' = scheduler svc.
Proof.
  intros Hnd Hpids.
  destruct (_cleanup_dead_sessions os_kill svc) as [svc'|] eqn:Hsweep.
  2:{ unfold _cleanup_dead_sessions in Hsweep.
      by rewrite (dead_sessions_spec _ _ Hpids) in Hsweep. }
  exists svc'. split; [done|].
  split; [by apply (sweep_survivors os_kill svc)|].
  unfold _cleanup_dead_sessions in Hsweep.
  rewrite (dead_sessions_spec _ _ Hpids) in Hsweep. injection Hsweep as <-.
  cbn [sessions scheduler svc_running]. split; [|done].
  destruct (List.map fst _) as [|sid dead] eqn:Hdead.
  - simpl. destruct (sessions svc); split; try by auto. all: by intros [-> _].
  - assert (sessions svc ≠ []) as Hne.
    { intros Hnil. by rewrite Hnil in Hdead. }
    destruct (fold_left _ (sid :: dead) (sessions svc)).
    + split; [done|]. by intros [_ [?|?]].
    + split; [by auto|]. by intros [-> _].
Qed.

(** The theorem on a registry of a dead session, a live one and one without
    a pid. *)
Lemma sweep_keeps_the_living_witness :
  ∃ svc',
    _cleanup_dead_sessions
      (λ z, if Z.eqb z 4242 then KillOSError ESRCH else KillReturns)
      (mkService scheduler_init
         [("a", mkSession (JInt 4242) 10%Q); ("b", mkSession (JInt 1) 11%Q);
          ("c", mkSession JNull 12%Q)] true)
    = Some svc'
    ∧ sessions svc'
      = List.filter
          (λ kv : string * session,
             negb (truthy (pid (snd kv)))
             || match kill_pid (pid (snd kv)) with
                | Some z =>
                    _is_pid_alive
                      (λ z, if Z.eqb z 4242 then KillOSError ESRCH else KillReturns) z
                | None => true
                end)
          [("a", mkSession (JInt 4242) 10%Q); ("b", mkSession (JInt 1) 11%Q);
           ("c", mkSession JNull 12%Q)]
    ∧ (svc_running svc' = true ↔
       true = true
       ∧ ([("a", mkSession (JInt 4242) 10%Q); ("b", mkSession (JInt 1) 11%Q);
           ("c", mkSession JNull 12%Q)] = [] ∨ sessions svc' ≠ []))
    ∧ scheduler svc' = scheduler_init.
Proof.
  apply (sweep_keeps_the_living
           (λ z, if Z.eqb z 4242 then KillOSError ESRCH else KillReturns)
           (mkService scheduler_init
              [("a", mkSession (JInt 4242) 10%Q); ("b", mkSession (JInt 1) 11%Q);
               ("c", mkSession JNull 12%Q)] true)).
  - apply (bool_decide_unpack _). reflexivity.
  - repeat constructor; simpl; try done; by eexists.
Defined.

(** X19.  A sweep that went through leaves nothing for the next one: with
    the same answers of the probe, sweeping the result again returns it
    unchanged. *)
Theorem sweep_twice os_kill svc svc' :
  _cleanup_dead_sessions os_kill svc = Some svc' →
  _cleanup_dead_sessions os_kill svc' = Some svc'.
Proof.
  unfold _cleanup_dead_sessions.
  destruct (dead_sessions os_kill (sessions svc)) as [dead|] eqn:Hdead; [|done].
  intros [= <-]. cbn [sessions scheduler svc_running].
  pose proof (dead_sessions_valid _ _ _ Hdead) as Hvalid.
  rewrite (dead_sessions_spec _ _ Hvalid) in Hdead. injection Hdead as <-.
  rewrite fold_del_filter.
  set (is_dead := λ kv : string * session,
         truthy (pid (snd kv))
         && match kill_pid (pid (snd kv)) with
            | Some z => negb (_is_pid_alive os_kill z)
            | None => false
            end).
  set (left := List.filter _ (sessions svc)).
  assert (Forall (λ kv, is_dead kv = false) left) as Hleft.
  { apply Forall_forall. intros kv [Hin Hkeep]%list_elem_of_In%filter_In.
    destruct (is_dead kv) eqn:Hd; [|done].
    apply negb_true_iff, not_true_iff_false in Hkeep. destruct Hkeep.
    apply existsb_exists. exists (fst kv). split; [|apply String.eqb_refl].
    apply in_map_iff. exists kv. split; [done|]. by apply filter_In. }
  rewrite dead_sessions_spec.
  2:{ apply Forall_forall. intros kv [Hin _]%list_elem_of_In%filter_In.
      rewrite Forall_forall in Hvalid. by apply Hvalid, list_elem_of_In. }
  fold is_dead.
  assert (List.filter is_dead left = []) as ->.
  { clear -Hleft. induction Hleft as [|kv left Hkv _ IH]; simpl; [done|].
    by rewrite Hkv. }
  simpl. by destruct left.
Qed.

(** The theorem after the sweep of a registry with one dead session. *)
Lemma sweep_twice_witness :
  _cleanup_dead_sessions
    (λ z, if Z.eqb z 4242 then KillOSError ESRCH else KillReturns)
    (mkService scheduler_init [("b", mkSession (JInt 1) 11%Q)] true)
  = Some (mkService scheduler_init [("b", mkSession (JInt 1) 11%Q)] true).
Proof.
  apply (sweep_twice
           (λ z, if Z.eqb z 4242 then KillOSError ESRCH else KillReturns)
           (mkService scheduler_init
              [("a", mkSession (JInt 4242) 10%Q); ("b", mkSession (JInt 1) 11%Q)]
              true)).
  reflexivity.
Defined.

Lemma dead_sessions_bad_pid os_kill (ss : PyDict.t session) sid info :
  (sid, info) ∈ ss → truthy (pid info) = true → kill_pid (pid info) = None →
  dead_sessions os_kill ss = None.
Proof.
  intros Hin Hpid Hbad.
  destruct (dead_sessions os_kill ss) as [dead|] eqn:Hdead; [|done].
  apply dead_sessions_valid in Hdead. rewrite Forall_forall in Hdead.
  destruct (Hdead _ Hin Hpid) as [z Hz]. simpl in Hz. congruence.
Qed.

(** X20.  [register_session] stores the [pid] of the request as it comes.
    When that value is truthy but nothing [os.kill] takes as a process id (a
    string, a float, a list, an integer beyond the range of a C [int]), a
    sweep of the registry raises before it removes anything, whatever the
    other sessions are and whatever their probes answer: the exception is
    not an [OSError], so [_is_pid_alive] does not catch it. *)
Theorem unchecked_pid_blocks_sweep env os_kill svc cmd sid :
  PyDict.get "command" cmd = Some (JStr "register_session") →
  PyDict.get "session_id" cmd = Some (JStr sid) →
  truthy (jget "pid" cmd) = true →
  kill_pid (jget "pid" cmd) = None →
  ∃ reply svc',
    _handle_command env cmd svc = Reply reply svc'
    ∧ _cleanup_dead_sessions os_kill svc' = None.
Proof.
  intros Hcmd Hsid Hpid Hbad. eexists _, _. split.
  - unfold _handle_command, jget_default. by rewrite Hcmd, Hsid.
  - unfold _cleanup_dead_sessions. cbn [sessions].
    rewrite (dead_sessions_bad_pid os_kill _ sid
               {| pid := jget "pid" cmd; registered_at := clock env 1 |});
      [done| |exact Hpid|exact Hbad].
    apply get_elem_of, get_set_eq.
Qed.

(** The theorem on a session registered with its pid as a string, next to a
    dead session. *)
Lemma unchecked_pid_blocks_sweep_witness :
  ∃ reply svc',
    _handle_command (mkEnv (λ _, 20%Q) (λ _, "20.0"))
      [("command", JStr "register_session"); ("session_id", JStr "b");
       ("pid", JStr "4243")]
      (mkService scheduler_init [("a", mkSession (JInt 4242) 10%Q)] true)
    = Reply reply svc'
    ∧ _cleanup_dead_sessions (λ _, KillOSError ESRCH) svc' = None.
Proof.
  apply (unchecked_pid_blocks_sweep (mkEnv (λ _, 20%Q) (λ _, "20.0"))
           (λ _, KillOSError ESRCH)
           (mkService scheduler_init [("a", mkSession (JInt 4242) 10%Q)] true)
           [("command", JStr "register_session"); ("session_id", JStr "b");
            ("pid", JStr "4243")] "b"); reflexivity.
Defined.

Lemma set_elem_of {V} k (v : V) (d : PyDict.t V) kv :
  kv ∈ PyDict.set k v d → kv = (k, v) ∨ kv ∈ d.
Proof.
  induction d as [|[k0 v0] d IH]; simpl.
  - intros ->%list_elem_of_singleton. by left.
  - destruct (String.eqb_spec k k0) as [->|Hne].
    + intros [->|?]%elem_of_cons; [by left|]. right. by right.
    + intros [->|Hin]%elem_of_cons; [right; by left|].
      destruct (IH Hin); [by left|]. right. by right.
Qed.

(** X21.  The client library registers a session without an id and without
    a pid; the service names it after the clock and stores no pid.  Such a
    session survives every sweep, whatever the probes answer, so after it is
    registered a sweep never stops the service. *)
Theorem client_session_is_never_swept env os_kill svc :
  NoDup (PyDict.keys (sessions svc)) →
  Forall (λ kv : string * session,
            truthy (pid (snd kv)) = true → is_Some (kill_pid (pid (snd kv))))
         (sessions svc) →
  ∃ count svc1 svc2,
    _handle_command env register_session_command svc
    = Reply (JDict [("status", JStr "ok");
                    ("session_id",
                     JStr ("session-" +:+ float_str env (clock env 0)));
                    ("session_count", JInt count)])
            svc1
    ∧ _cleanup_dead_sessions os_kill svc1 = Some svc2
    ∧ ("session-" +:+ float_str env (clock env 0),
       {| pid := JNull; registered_at := clock env 1 |}) ∈ sessions svc2
    ∧ svc_running svc2 = svc_running svc.
Proof.
  intros Hnd Hvalid.
  set (sid := "session-" +:+ float_str env (clock env 0)).
  set (info := {| pid := JNull; registered_at := clock env 1 |}).
  set (svc1 := {| scheduler := scheduler svc;
                  sessions := PyDict.set sid info (sessions svc);
                  svc_running := svc_running svc |}).
  assert (Forall (λ kv : string * session,
                    truthy (pid (snd kv)) = true → is_Some (kill_pid (pid (snd kv))))
                 (sessions svc1)) as Hvalid1.
  { apply Forall_forall. intros kv [->|Hin]%set_elem_of; [done|].
    rewrite Forall_forall in Hvalid. by apply Hvalid. }
  destruct (_cleanup_dead_sessions os_kill svc1) as [svc2|] eqn:Hsweep.
  2:{ unfold _cleanup_dead_sessions in Hsweep.
      by rewrite (dead_sessions_spec _ _ Hvalid1) in Hsweep. }
  assert ((sid, info) ∈ sessions svc2) as Hin.
  { rewrite (sweep_survivors os_kill svc1 svc2); [|by apply set_keys_NoDup|done].
    apply list_elem_of_In, filter_In. split; [|done].
    apply list_elem_of_In, get_elem_of, get_set_eq. }
  exists (Z.of_nat (length (sessions svc1))), svc1, svc2.
  split; [done|]. split; [done|]. split; [done|].
  unfold _cleanup_dead_sessions in Hsweep.
  destruct (dead_sessions os_kill (sessions svc1)) as [dead|]; [|done].
  injection Hsweep as <-. cbn [sessions svc_running] in *.
  destruct (fold_left _ dead _); [|done]. by apply elem_of_nil in Hin.
Qed.

(** The theorem on a registry whose only other session is dead. *)
Lemma client_session_is_never_swept_witness :
  ∃ count svc1 svc2,
    _handle_command (mkEnv (λ _, 20%Q) (λ _, "20.0")) register_session_command
      (mkService scheduler_init [("a", mkSession (JInt 4242) 10%Q)] true)
    = Reply (JDict [("status", JStr "ok"); ("session_id", JStr "session-20.0");
                    ("session_count", JInt count)])
            svc1
    ∧ _cleanup_dead_sessions (λ _, KillOSError ESRCH) svc1 = Some svc2
    ∧ ("session-20.0", {| pid := JNull; registered_at := 20%Q |}) ∈ sessions svc2
    ∧ svc_running svc2 = true.
Proof.
  apply (client_session_is_never_swept (mkEnv (λ _, 20%Q) (λ _, "20.0"))
           (λ _, KillOSError ESRCH)
           (mkService scheduler_init [("a", mkSession (JInt 4242) 10%Q)] true)).
  - apply NoDup_singleton.
  - repeat constructor. by eexists.
Defined.

(** * Commands as the client library builds them *)

Lemma as_int_list_ints ds : as_int_list (JList (List.map JInt ds)) = Some ds.
Proof.
  unfold as_int_list. induction ds as [|d ds IH]; [done|].
  simpl in *. by rewrite IH.
Qed.

Lemma get_app {V} k (d d' : PyDict.t V) :
  PyDict.get k (d ++ d')
  = match PyDict.get k d with Some v => Some v | None => PyDict.get k d' end.
Proof.
  induction d as [|[k0 v0] d IH]; simpl; [done|].
  by destruct (String.eqb k k0).
Qed.

Lemma handle_add_escalation_command env svc eid msg delays :
  _handle_command env (add_escalation_command eid msg delays) svc
  = Reply (JDict [("status", JStr "ok");
                  ("escalation_id",
                   JStr (if String.eqb eid "" then "unknown" else eid))])
          {| scheduler :=
               add (if String.eqb eid "" then "unknown" else eid) msg
                   (match delays with
                    | Some [] | None => DEFAULT_DELAYS
                    | Some ds => ds
                    end)
                   (clock env 0) (scheduler svc);
             sessions := sessions svc;
             svc_running := svc_running svc |}.
Proof.
  unfold _handle_command, add_escalation_command.
  destruct delays as [[|d ds]|];
    cbn -[add as_int_list DEFAULT_DELAYS List.map truthy];
    rewrite ?as_int_list_ints; unfold py_or; cbn [truthy];
    destruct (String.eqb eid ""); reflexivity.
Qed.

Lemma handle_cancel_escalation_command env svc eid :
  _handle_command env (cancel_escalation_command eid) svc
  = Reply (JDict [("status", JStr "ok");
                  ("cancelled",
                   JBool (PyDict.mem eid (events_by_id (scheduler svc))))])
          {| scheduler := snd (cancel eid (scheduler svc));
             sessions := sessions svc;
             svc_running := svc_running svc |}.
Proof.
  unfold _handle_command, cancel_escalation_command.
  cbn -[cancel truthy]. unfold py_or. cbn [truthy].
  assert (as_str (if negb (String.eqb eid "") then JStr eid else JStr "")
          = Some eid) as ->.
  { by destruct (String.eqb_spec eid "") as [->|]. }
  destruct (cancel eid (scheduler svc)) as [found s'] eqn:Hcancel. simpl.
  replace found with (fst (cancel eid (scheduler svc))) by by rewrite Hcancel.
  unfold cancel. by rewrite cancel_found.
Qed.



(** X24.  The busy check looks the session up in the registry, so it can
    hold a notification back only for a registered session.  Once a session
    is unregistered by its id, a notification for it is spawned whatever
    [psutil] reports about any process. *)
Theorem unregistered_session_is_notified env svc sid has_psutil psutil root msg prio :
  sid ≠ "" →
  PyDict.mem sid (sessions svc) = true →
  ∃ reply svc',
    _handle_command env
      [("command", JStr "unregister_session"); ("session_id", JStr sid)] svc
    = Reply reply svc'
    ∧ _send_notification has_psutil psutil (sessions svc') root sid msg prio
      = Some (notifier_cmd root msg prio).
Proof.
  intros Hsid Hmem. eexists _, _. split.
  - unfold _handle_command. cbn -[unregister]. unfold unregister.
    assert (truthy (JStr sid) = true) as ->.
    { simpl. by destruct (String.eqb_spec sid ""). }
    rewrite Hmem. cbn [andb]. reflexivity.
  - cbn [sessions]. unfold _send_notification, _is_session_busy.
    rewrite get_del_eq. by destruct has_psutil.
Qed.

(** The theorem on a busy session: before it is unregistered the
    notification is held back, afterwards it is spawned. *)
Lemma unregistered_session_is_notified_witness :
  _send_notification true (λ _, PsInfo 50 0)
    [("a", mkSession (JInt 4242) 10%Q)] "/p" "a" "m" 0 = None
  ∧ ∃ reply svc',
      _handle_command (mkEnv (λ _, 20%Q) (λ _, "20.0"))
        [("command", JStr "unregister_session"); ("session_id", JStr "a")]
        (mkService scheduler_init [("a", mkSession (JInt 4242) 10%Q)] true)
      = Reply reply svc'
      ∧ _send_notification true (λ _, PsInfo 50 0) (sessions svc') "/p" "a" "m" 0
        = Some (notifier_cmd "/p" "m" 0).
Proof.
  split; [reflexivity|].
  apply (unregistered_session_is_notified (mkEnv (λ _, 20%Q) (λ _, "20.0"))
           (mkService scheduler_init [("a", mkSession (JInt 4242) 10%Q)] true)
           "a" true (λ _, PsInfo 50 0) "/p" "m" 0%Z).
  - done.
  - reflexivity.
Defined.

(** * Hooks against the service *)

Lemma append_ne (s t : string) : t ≠ "" → s +:+ t ≠ s.
Proof.
  intros Ht. induction s as [|a s IH]; simpl; [done|].
  intros [= Heq]. by apply IH.
Qed.

(** X25.  The permission hook files its escalation under
    [session_id:tool_use_id] when its input has a tool id and under
    [session_id] otherwise, with the delays 60 and 3600; the cancel hook
    always cancels [session_id].  So the cancel hook of the same session
    removes the escalation exactly when the permission prompt came without a
    tool id.  With one, the escalation stays indexed with both its events, and
    the reply of the cancel only tells whether something else was filed under
    the bare session id. *)
Theorem cancel_hook_reaches_permission_escalation env env' svc hook_add
    hook_cancel session_id tool_use_id message :
  session_id ≠ "" →
  PyDict.get "notification_type" hook_add = Some (JStr "permission_prompt") →
  PyDict.get "session_id" hook_add = Some (JStr session_id) →
  jget_default "tool_use_id" (JStr "") hook_add = JStr tool_use_id →
  jget_default "message" (JStr "Awaiting permission approval") hook_add
  = JStr message →
  PyDict.get "session_id" hook_cancel = Some (JStr session_id) →
  ∃ add_command reply svc1 cancel_command found svc2,
    on_permission.main hook_add = HookSends add_command
    ∧ _handle_command env add_command svc = Reply reply svc1
    ∧ cancel_escalation.main true hook_cancel = HookSends cancel_command
    ∧ _handle_command env' cancel_command svc1
      = Reply (JDict [("status", JStr "ok"); ("cancelled", JBool found)]) svc2
    ∧ if String.eqb tool_use_id ""
      then found = true
           ∧ PyDict.get session_id (events_by_id (scheduler svc2)) = None
      else found = PyDict.mem session_id (events_by_id (scheduler svc))
           ∧ PyDict.get (session_id +:+ ":" +:+ tool_use_id)
                        (events_by_id (scheduler svc2))
             = Some (seq (length (objs (scheduler svc))) 2).
Proof.
  intros Hsid Htype Hadd_sid Htool Hmsg Hcancel_sid.
  set (eid := if truthy (JStr tool_use_id)
              then session_id +:+ ":" +:+ tool_use_id else session_id).
  assert (String.eqb eid "" = false) as Heid.
  { subst eid. simpl. destruct (String.eqb tool_use_id ""); simpl.
    - by apply String.eqb_neq.
    - apply String.eqb_neq. by destruct session_id. }
  set (s1 := add eid message on_permission.DELAYS (clock env 0) (scheduler svc)).
  exists (add_escalation_command eid message (Some on_permission.DELAYS)),
    (JDict [("status", JStr "ok"); ("escalation_id", JStr eid)]),
    {| scheduler := s1; sessions := sessions svc; svc_running := svc_running svc |},
    (cancel_escalation_command session_id),
    (PyDict.mem session_id (events_by_id s1)),
    {| scheduler := snd (cancel session_id s1); sessions := sessions svc;
       svc_running := svc_running svc |}.
  split; [|split; [|split; [|split]]].
  - unfold on_permission.main, jget_default in *.
    rewrite Htype, Hadd_sid. cbn [is_str String.eqb Ascii.eqb Bool.eqb negb].
    by rewrite Htool, Hmsg.
  - rewrite handle_add_escalation_command. by rewrite Heid.
  - unfold cancel_escalation.main, jget_default. rewrite Hcancel_sid.
    cbn [truthy]. by destruct (String.eqb_spec session_id "").
  - by rewrite handle_cancel_escalation_command.
  - cbn [scheduler]. unfold cancel, PyDict.mem. rewrite cancel_index.
    subst s1. rewrite !add_index. subst eid. cbn [truthy].
    destruct (String.eqb_spec tool_use_id "") as [->|Htool_ne]; cbn [negb].
    + rewrite get_app, get_del_eq. simpl. rewrite String.eqb_refl.
      split; [done|]. by rewrite del_snoc, del_del, get_del_eq.
    + assert (session_id ≠ session_id +:+ ":" +:+ tool_use_id) as Hne.
      { intros Heq. symmetry in Heq. by apply append_ne in Heq. }
      rewrite get_app, get_del_ne by done. simpl.
      destruct (String.eqb_spec session_id (session_id +:+ ":" +:+ tool_use_id));
        [done|].
      split; [by destruct (PyDict.get session_id _)|].
      rewrite get_del_ne, get_app, get_del_eq by done. simpl.
      by rewrite String.eqb_refl.
Qed.

(** The theorem on a permission prompt with a tool id: the cancel hook of the
    session misses the escalation. *)
Lemma cancel_hook_reaches_permission_escalation_witness :
  ∃ add_command reply svc1 cancel_command found svc2,
    on_permission.main
      [("session_id", JStr "S1"); ("tool_use_id", JStr "t7");
       ("message", JStr "m"); ("notification_type", JStr "permission_prompt")]
    = HookSends add_command
    ∧ _handle_command (mkEnv (λ _, 0%Q) (λ _, "0.0")) add_command
        (mkService scheduler_init [] true)
      = Reply reply svc1
    ∧ cancel_escalation.main true
        [("session_id", JStr "S1"); ("hook_event_name", JStr "PostToolUse")]
      = HookSends cancel_command
    ∧ _handle_command (mkEnv (λ _, 5%Q) (λ _, "5.0")) cancel_command svc1
      = Reply (JDict [("status", JStr "ok"); ("cancelled", JBool found)]) svc2
    ∧ found = false
    ∧ PyDict.get "S1:t7" (events_by_id (scheduler svc2)) = Some [0; 1]%nat.
Proof.
  apply (cancel_hook_reaches_permission_escalation
           (mkEnv (λ _, 0%Q) (λ _, "0.0")) (mkEnv (λ _, 5%Q) (λ _, "5.0"))
           (mkService scheduler_init [] true)
           [("session_id", JStr "S1"); ("tool_use_id", JStr "t7");
            ("message", JStr "m"); ("notification_type", JStr "permission_prompt")]
           [("session_id", JStr "S1"); ("hook_event_name", JStr "PostToolUse")]
           "S1" "t7" "m"); try reflexivity.
  done.
Defined.
